(** * pythonwhois.net: the WHOIS referral resolver

    A shallow embedding of [pythonwhois/net.py] (class [WhoisParser] and the
    two module-level entry points) together with the properties of its
    referral chase.

    Conventions of the embedding.
    - Python 3 semantics.  A [str] is a list of Unicode code points, a
      [bytes] value a list of bytes.
    - The socket is an oracle: a function from the number of exchanges made
      so far, the server, the port and the request line to the bytes read
      until the peer closes (or a transport failure).  Every exchange is
      appended to a log, so that "which servers were queried, in which
      order" is a value one can state theorems about.
    - Exceptions are values of type [exn]; a computation is a function from
      the log to an outcome and the new log.
    - The recursion of [get_whois_raw] is bounded by nothing in the source
      (an adversarial peer can name a new server for ever), so the embedding
      takes fuel; theorems about termination give the fuel that suffices. *)

From Stdlib Require Import String Ascii NArith Bool Arith Lia List.
Import ListNotations.

(* ================================================================== *)
(** * Python strings *)

Definition char := N.
Definition str := list char.
Definition bytes := list Byte.byte.

(** A source literal. *)
Definition lit (s : string) : str := map N_of_ascii (list_ascii_of_string s).

Definition LF : char := 10%N.

Fixpoint str_eqb (a b : str) : bool :=
  match a, b with
  | [], [] => true
  | x :: a', y :: b' => N.eqb x y && str_eqb a' b'
  | _, _ => false
  end.

(** [x in l] for a list of strings. *)
Fixpoint str_in (x : str) (l : list str) : bool :=
  match l with
  | [] => false
  | y :: l' => str_eqb x y || str_in x l'
  end.

(** [s.startswith(p)] *)
Fixpoint startswith (s p : str) {struct p} : bool :=
  match p, s with
  | [], _ => true
  | c :: p', d :: s' => N.eqb c d && startswith s' p'
  | _ :: _, [] => false
  end.

(** [s.endswith(p)] *)
Definition endswith (s p : str) : bool :=
  (length p <=? length s) && str_eqb (skipn (length s - length p) s) p.

(** [p in s] for strings: [p] occurs in [s] as a contiguous run. *)
Fixpoint contains (p s : str) : bool :=
  startswith s p || match s with [] => false | _ :: s' => contains p s' end.

(** [str.isspace] on one code point; [\s] of a [str] pattern is the same
    set. *)
Definition isspace (c : char) : bool :=
  ((9 <=? c) && (c <=? 13) || (28 <=? c) && (c <=? 32)
   || (c =? 133) || (c =? 160) || (c =? 5760)
   || (8192 <=? c) && (c <=? 8202)
   || (c =? 8232) || (c =? 8233) || (c =? 8239) || (c =? 8287)
   || (c =? 12288))%N.

Fixpoint lstrip (s : str) : str :=
  match s with
  | c :: s' => if isspace c then lstrip s' else s
  | [] => []
  end.

(** [s.strip()] *)
Definition strip (s : str) : str := rev (lstrip (rev (lstrip s))).

(** [s.split(sep)] for a non-empty separator: cut at the occurrences of
    [sep], found left to right and not overlapping.  [skip] counts the
    characters of a separator still to be passed over, [cur] is the piece
    being collected, reversed. *)
Fixpoint split_from (sep : str) (skip : nat) (cur : str) (s : str) : list str :=
  match s with
  | [] => [rev cur]
  | c :: s' =>
      match skip with
      | S n => split_from sep n cur s'
      | O => if startswith s sep
             then rev cur :: split_from sep (length sep - 1) [] s'
             else split_from sep 0 (c :: cur) s'
      end
  end.

Definition split (s sep : str) : list str := split_from sep 0 [] s.

Definition is_ascii (c : char) : bool := (c <? 128)%N.

Definition is_upper_ascii (c : char) : bool := ((65 <=? c) && (c <=? 90))%N.
Definition is_lower_ascii (c : char) : bool := ((97 <=? c) && (c <=? 122))%N.

(** [str.upper] on an ASCII code point. *)
Definition upper_ascii (c : char) : char :=
  if is_lower_ascii c then (c - 32)%N else c.

(* ================================================================== *)
(** * The regular expressions of the module

    [re] is a backtracking matcher.  The embedding keeps that: a pattern is
    a syntax tree, matched by trying the alternatives in order and the
    greedy repetitions longest first, with a continuation for what
    follows. *)

Module Re.

Inductive cclass :=
| Space       (* \s *)
| NotSpace.   (* [^\s] *)

Definition in_class (c : cclass) (t : char) : bool :=
  match c with
  | Space => isspace t
  | NotSpace => negb (isspace t)
  end.

Inductive regex :=
| Eps                       (* the empty pattern *)
| Chr (c : char)            (* a literal character of the pattern *)
| Cat (a b : regex)
| Alt (a b : regex)
| Star (c : cclass)         (* c*, greedy *)
| Plus (c : cclass)         (* c+, greedy *)
| Group (a : regex).        (* ( a ), the capturing group *)

(** A literal word of the pattern. *)
Fixpoint word (s : str) : regex :=
  match s with
  | [] => Eps
  | c :: s' => Cat (Chr c) (word s')
  end.

(** How a literal of the pattern (an ASCII character) matches a character of
    the text under [re.IGNORECASE]: the text character is lower-cased and
    compared, and [i] and [s] also match the dotless i and the long s. *)
Definition sre_lower (t : char) : char :=
  if is_upper_ascii t then (t + 32)%N
  else if (t =? 304)%N then 105%N      (* U+0130 lowers to i *)
  else if (t =? 8490)%N then 107%N     (* U+212A, the Kelvin sign, to k *)
  else t.

Definition lit_ignorecase (p t : char) : bool :=
  if is_upper_ascii p || is_lower_ascii p then
    let lo := sre_lower p in
    let t' := sre_lower t in
    ((t' =? lo) || (lo =? 105) && (t' =? 305) || (lo =? 115) && (t' =? 383))%N
  else (t =? p)%N.

(** What a match gives: the text of the group, if it took part, and the
    text left after the match. *)
Definition hit := (option str * str)%type.

Fixpoint star (p : char -> bool) (s : str) (k : str -> option hit)
  : option hit :=
  match s with
  | t :: s' =>
      if p t then
        match star p s' k with
        | Some r => Some r
        | None => k s
        end
      else k s
  | [] => k []
  end.

Fixpoint run (r : regex) (s : str) (g : option str)
    (k : str -> option str -> option hit) : option hit :=
  match r with
  | Eps => k s g
  | Chr c =>
      match s with
      | t :: s' => if lit_ignorecase c t then k s' g else None
      | [] => None
      end
  | Cat a b => run a s g (fun s1 g1 => run b s1 g1 k)
  | Alt a b =>
      match run a s g k with
      | Some x => Some x
      | None => run b s g k
      end
  | Star c => star (in_class c) s (fun s1 => k s1 g)
  | Plus c =>
      match s with
      | t :: s' =>
          if in_class c t then star (in_class c) s' (fun s1 => k s1 g)
          else None
      | [] => None
      end
  | Group a =>
      run a s g (fun s1 _ => k s1 (Some (firstn (length s - length s1) s)))
  end.

(** A match starting at the head of [s]. *)
Definition match_here (r : regex) (s : str) : option hit :=
  run r s None (fun rest g => Some (g, rest)).

Definition group_text (g : option str) : str :=
  match g with Some t => t | None => [] end.

(** [pattern.findall(s)] for a pattern with one group: the group's text of
    every match, scanning left to right, a match starting where the previous
    one ended.  [skip] counts the characters of the current match still to
    be passed over. *)
Fixpoint findall_from (r : regex) (skip : nat) (s : str) : list str :=
  match s with
  | [] =>
      match skip with
      | S _ => []
      | O => match match_here r [] with
             | Some (g, _) => [group_text g]
             | None => []
             end
      end
  | _ :: s' =>
      match skip with
      | S n => findall_from r n s'
      | O =>
          match match_here r s with
          | Some (g, rest) =>
              group_text g
                :: findall_from r (length s - length rest - 1) s'
          | None => findall_from r 0 s'
          end
      end
  end.

Definition findall (r : regex) (s : str) : list str := findall_from r 0 s.

(** [re.search(p, s)] for the pattern ["Domain Name: %s\n" % domain.upper()]
    of [_process_response], which has no flag: an element is a literal
    character or the dot, which stands for any character but a newline. *)
Inductive atom :=
| Exactly (c : char)
| AnyButNewline.

Definition atom_matches (a : atom) (t : char) : bool :=
  match a with
  | Exactly c => (t =? c)%N
  | AnyButNewline => negb (t =? LF)%N
  end.

Fixpoint atoms_here (p : list atom) (s : str) {struct p} : bool :=
  match p, s with
  | [], _ => true
  | a :: p', t :: s' => atom_matches a t && atoms_here p' s'
  | _ :: _, [] => false
  end.

Fixpoint search (p : list atom) (s : str) : bool :=
  atoms_here p s || match s with [] => false | _ :: s' => search p s' end.

(** The characters that are not literals in the source of a pattern. *)
Definition is_special (c : char) : bool :=
  existsb (N.eqb c) (lit "\^$.|?*+()[]{}").

End Re.

(* ================================================================== *)
(** * Codecs *)

Module Codec.

Definition continuation (b : N) : bool := ((128 <=? b) && (b <=? 191))%N.

(** [bytes.decode("utf-8")], strict: no overlong form, no surrogate, nothing
    above U+10FFFF.  [None] is [UnicodeDecodeError]. *)
Fixpoint utf8 (bs : list N) : option str :=
  match bs with
  | [] => Some []
  | b0 :: r0 =>
      if (b0 <? 128)%N then option_map (cons b0) (utf8 r0)
      else if ((194 <=? b0) && (b0 <=? 223))%N then
        match r0 with
        | b1 :: r1 =>
            if continuation b1
            then option_map (cons ((b0 - 192) * 64 + (b1 - 128))%N) (utf8 r1)
            else None
        | _ => None
        end
      else if ((224 <=? b0) && (b0 <=? 239))%N then
        match r0 with
        | b1 :: b2 :: r2 =>
            if ((if b0 =? 224 then 160 else 128) <=? b1)%N
               && (b1 <=? (if b0 =? 237 then 159 else 191))%N
               && continuation b2
            then option_map
                   (cons ((b0 - 224) * 4096 + (b1 - 128) * 64 + (b2 - 128))%N)
                   (utf8 r2)
            else None
        | _ => None
        end
      else if ((240 <=? b0) && (b0 <=? 244))%N then
        match r0 with
        | b1 :: b2 :: b3 :: r3 =>
            if ((if b0 =? 240 then 144 else 128) <=? b1)%N
               && (b1 <=? (if b0 =? 244 then 143 else 191))%N
               && continuation b2 && continuation b3
            then option_map
                   (cons ((b0 - 240) * 262144 + (b1 - 128) * 4096
                          + (b2 - 128) * 64 + (b3 - 128))%N)
                   (utf8 r3)
            else None
        | _ => None
        end
      else None
  end.

Definition decode_utf8 (b : bytes) : option str := utf8 (map Byte.to_N b).

(** [bytes.decode("iso-8859-1")]: byte [n] is code point [n]. *)
Definition decode_latin1 (b : bytes) : option str := Some (map Byte.to_N b).

(** [bytes.decode("ascii")] *)
Definition decode_ascii (b : bytes) : option str :=
  let s := map Byte.to_N b in
  if forallb is_ascii s then Some s else None.

(** [str.encode("ascii")] *)
Fixpoint encode_ascii (s : str) : option bytes :=
  match s with
  | [] => Some []
  | c :: s' =>
      if is_ascii c then
        match Byte.of_N c, encode_ascii s' with
        | Some b, Some bs => Some (b :: bs)
        | _, _ => None
        end
      else None
  end.

(** [str.encode("utf-8")] fails on a surrogate code point, and on nothing
    else. *)
Definition utf8_encodable (s : str) : bool :=
  forallb (fun c => negb ((55296 <=? c) && (c <=? 57343))%N) s.

Inductive encoding := Utf8 | Iso8859_1.

Definition decode (e : encoding) (b : bytes) : option str :=
  match e with
  | Utf8 => decode_utf8 b
  | Iso8859_1 => decode_latin1 b
  end.

End Codec.

(* ================================================================== *)
(** * Outcomes and effects *)

Inductive exn :=
| SocketError                    (* connect, send or recv failed *)
| TypeError                      (* connect refuses the host name *)
| OverflowError                  (* connect refuses the port *)
| UnicodeEncodeError             (* the request line has no UTF-8 form *)
| UnicodeError                   (* the idna codec *)
| ValueError (msg : str)         (* _server_process_result *)
| WhoisException (msg : str).    (* shared.WhoisException *)

Inductive outcome (A : Type) :=
| Ok (a : A)
| Raise (e : exn)
| OutOfFuel       (* the embedding's recursion bound was reached *)
| NotEmbedded.    (* the call leaves the part of Python embedded here *)

Arguments Ok {A} a.
Arguments Raise {A} e.
Arguments OutOfFuel {A}.
Arguments NotEmbedded {A}.

(** One connection: where to, what was sent, what came back. *)
Record exchange := Exchange {
  ex_server : str;
  ex_port : N;
  ex_request : str;
  ex_reply : option bytes
}.

(** What the peers do.  Given how many connections were made before, the
    server and the port, connecting fails ([None]) or reaches a peer; the
    peer maps the request line to the bytes read until it closes, or fails
    ([None]) while they are sent or read. *)
Definition network := nat -> str -> N -> option (str -> option bytes).

(** What the embedding takes from outside the module: the peers as the
    wire reaches them ([None]: name resolution or the connection fails with
    a socket error), and the part of the [idna] codec that handles a name
    with a non-ASCII character (nameprep and Punycode, label by label;
    [None] is its [UnicodeError]). *)
Record env := Env {
  wire : network;
  idna_nonascii : str -> option bytes
}.

(** What [sock.connect((server, port))] does with its arguments before
    anything is sent.  The host name is looked at first: an ASCII name is
    taken as it is, another name goes through the [idna] codec; a name that
    the codec refuses, or that has a null character, is a [TypeError].  Then
    the port: above 65535 it is an [OverflowError]. *)
Definition host_bytes (E : env) (server : str) : option bytes :=
  match Codec.encode_ascii server with
  | Some name => Some name
  | None => idna_nonascii E server
  end.

Definition connect_error (E : env) (server : str) (port : N) : option exn :=
  match host_bytes E server with
  | None => Some TypeError
  | Some name =>
      if existsb (Byte.eqb Byte.x00) name then Some TypeError
      else if (65535 <? port)%N then Some OverflowError
      else None
  end.

(** The exception of a connection that is not made. *)
Definition connect_failure (E : env) (server : str) (port : N) : exn :=
  match connect_error E server port with
  | Some e => e
  | None => SocketError
  end.

(** The peer that [connect] reaches: there is none when [connect] refuses
    its arguments or the wire fails. *)
Definition net (E : env) : network :=
  fun n server port =>
    match connect_error E server port with
    | Some _ => None
    | None => wire E n server port
    end.

Definition rbind {A B} (r : outcome A) (f : A -> outcome B) : outcome B :=
  match r with
  | Ok a => f a
  | Raise e => Raise e
  | OutOfFuel => OutOfFuel
  | NotEmbedded => NotEmbedded
  end.

(** A computation reads and extends the log of exchanges. *)
Definition M (A : Type) := list exchange -> outcome A * list exchange.

Definition ret {A} (a : A) : M A := fun log => (Ok a, log).

Definition lift {A} (r : outcome A) : M A := fun log => (r, log).

Definition bind {A B} (m : M A) (f : A -> M B) : M B :=
  fun log =>
    match m log with
    | (Ok a, log') => f a log'
    | (Raise e, log') => (Raise e, log')
    | (OutOfFuel, log') => (OutOfFuel, log')
    | (NotEmbedded, log') => (NotEmbedded, log')
    end.

(** [x or []] *)
Definition or_empty {A} (x : option (list A)) : list A :=
  match x with
  | Some (a :: l) => a :: l
  | _ => []
  end.

Notation "x <- m ;; f" := (bind m (fun x => f))
  (at level 61, m at next level, right associativity).

(** [encode(input, "idna")] of the standard library.  A name that is all
    ASCII takes the codec's fast path: it is returned as it is, provided
    every label but the last has 1 to 63 characters and the last has at
    most 63. *)
Definition label_ok (l : str) : bool := (0 <? length l) && (length l <? 64).

Definition idna_encode (E : env) (input : str) : outcome bytes :=
  match input with
  | [] => Ok []
  | _ :: _ =>
      match Codec.encode_ascii input with
      | Some result =>
          let labels := split input (lit ".") in
          if forallb label_ok (removelast labels)
             && (length (last labels []) <? 64)
          then Ok result
          else Raise UnicodeError
      | None =>
          match idna_nonascii E input with
          | Some result => Ok result
          | None => Raise UnicodeError
          end
      end
  end.

(* ================================================================== *)
(** * class WhoisParser *)

Module WhoisParser.

Definition IANA_SERVER : str := lit "whois.iana.org".

Definition whois_regexp : Re.regex :=
  Re.Cat
    (Re.Alt (Re.word (lit "refer"))
    (Re.Alt (Re.word (lit "whois server"))
    (Re.Alt (Re.word (lit "referral url"))
    (Re.Alt (Re.word (lit "whois server"))
            (Re.word (lit "registrar whois"))))))
    (Re.Cat (Re.Chr 58%N (* : *))
    (Re.Cat (Re.Star Re.Space)
            (Re.Group
               (Re.Cat (Re.Plus Re.NotSpace)
               (Re.Cat (Re.Chr 46%N (* \. *))
                       (Re.Plus Re.NotSpace)))))).

(** The dictionary, in the order of the source. *)
Definition root_servers : list (str * str) :=
  [ (lit ".ac.uk", lit "whois.ja.net");
    (lit ".ps", lit "whois.pnina.ps");
    (lit ".buzz", lit "whois.nic.buzz");
    (lit ".moe", lit "whois.nic.moe");
    (lit "example.com", lit "whois.verisign-grs.com") ].

(** The object: [self._domain] and [self.rfc3490]. *)
Record t := Build { domain : str; rfc3490 : bool }.

Definition default_port : N := 43%N.

Definition convert_to_rfc3490 (E : env) (domain : str) : outcome str :=
  rbind (idna_encode E domain) (fun b =>
  match Codec.decode_ascii b with
  | Some s => Ok s
  | None => Raise UnicodeError
  end).

(** The property caches a value that depends on [self.domain] only. *)
Definition domain_rfc3490 (E : env) (self : t) : outcome str :=
  convert_to_rfc3490 E (domain self).

Fixpoint first_suffix (table : list (str * str)) (domain : str) : option str :=
  match table with
  | [] => None
  | (pattern, server) :: rest =>
      if endswith domain pattern then Some server
      else first_suffix rest domain
  end.

Definition get_default_server (domain : str) : option str :=
  first_suffix root_servers domain.

Definition prepare_request (domain server : str) : str :=
  if str_eqb server (lit "whois.jprs.jp") then
    domain ++ lit "/e"
  else if endswith domain (lit ".de")
          && (str_eqb server (lit "whois.denic.de")
              || str_eqb server (lit "de.whois-servers.net")) then
    lit "-T dn,ace " ++ domain
  else if str_eqb server (lit "whois.verisign-grs.com") then
    lit "=" ++ domain
  else domain.

(** The loop of [extract_whois_server] over the items. *)
Fixpoint first_new (items : list str) (server_list : list str) : option str :=
  match items with
  | [] => None
  | item :: rest =>
      let server := strip item in
      if negb (str_in server server_list) && negb (contains (lit "://") server)
      then Some server
      else first_new rest server_list
  end.

Definition extract_whois_server (response : str)
    (server_list : option (list str)) : option str :=
  let server_list := or_empty server_list in
  let items := Re.findall whois_regexp response in
  first_new items server_list.

(** The log gets the call whatever comes of it: [ex_reply] is [None] when
    nothing was read. *)
Definition _server_request (E : env) (request server : str) (port : N)
  : M bytes :=
  fun log =>
    match connect_error E server port with
    | Some e => (Raise e, log ++ [Exchange server port request None])
    | None =>
        match wire E (length log) server port with
        | None =>
            (Raise SocketError, log ++ [Exchange server port request None])
        | Some peer =>
            if Codec.utf8_encodable request then
              let buff := peer request in
              (match buff with Some b => Ok b | None => Raise SocketError end,
               log ++ [Exchange server port request buff])
            else
              (Raise UnicodeEncodeError,
               log ++ [Exchange server port request None])
        end
    end.

Definition encodings : list Codec.encoding := [Codec.Utf8; Codec.Iso8859_1].

Fixpoint first_decoding (encs : list Codec.encoding) (result : bytes)
  : option str :=
  match encs with
  | [] => None
  | encoding :: rest =>
      match Codec.decode encoding result with
      | Some text => Some text
      | None => first_decoding rest result
      end
  end.

Definition _server_process_result (result : bytes) (server : str)
  : outcome str :=
  match first_decoding encodings result with
  | Some text => Ok text
  | None =>
      Raise (ValueError (lit "Could not decode whois response from " ++ server))
  end.

Definition whois_request (E : env) (request server : str) (port : N) : M str :=
  result <- _server_request E request server port ;;
  lift (_server_process_result result server).

(** The pattern ["Domain Name: %s\n" % domain.upper()].  The domain goes
    into the pattern as it is, so its dots are wildcards.  [None]: the
    domain has a non-ASCII character or another special character of
    patterns; there [re.search] raises [re.error] when the pattern does not
    compile and matches as a regular expression does when it compiles, and
    the search is outside the embedding ([NotEmbedded], never a result and
    never one of the exceptions of [exn]). *)
Fixpoint domain_atoms (d : str) : option (list Re.atom) :=
  match d with
  | [] => Some []
  | c :: d' =>
      let u := upper_ascii c in
      if negb (is_ascii c) then None
      else if (u =? 46)%N then option_map (cons Re.AnyButNewline) (domain_atoms d')
      else if Re.is_special u then None
      else option_map (cons (Re.Exactly u)) (domain_atoms d')
  end.

Definition domain_pattern (domain : str) : option (list Re.atom) :=
  option_map
    (fun atoms => map Re.Exactly (lit "Domain Name: ") ++ atoms ++ [Re.Exactly LF])
    (domain_atoms domain).

(** The loop over [response.split("\n\n")] with its [break]. *)
Fixpoint first_record (p : list Re.atom) (records : list str) : option str :=
  match records with
  | [] => None
  | record :: rest =>
      if Re.search p record then Some record else first_record p rest
  end.

Definition select_record (response domain : str) : outcome str :=
  match domain_pattern domain with
  | None => NotEmbedded
  | Some p =>
      match first_record p (split response [LF; LF]) with
      | Some record => Ok record
      | None => Ok response
      end
  end.

(** Returns the response together with the two lists as the call leaves
    them. *)
Definition _process_response (response domain server : str)
    (previous server_list : list str) (never_cut : bool)
  : outcome (str * list str * list str) :=
  let previous := if never_cut then response :: previous else previous in
  rbind (if str_eqb server (lit "whois.verisign-grs.com")
         then select_record response domain
         else Ok response) (fun response =>
  let previous := if never_cut then previous else response :: previous in
  let server_list := server_list ++ [server] in
  Ok (response, previous, server_list)).

Definition wire_domain (E : env) (self : t) : outcome str :=
  if rfc3490 self then domain_rfc3490 E self else Ok (domain self).

Definition get_root_server (E : env) (self : t) : M str :=
  match get_default_server (domain self) with
  | Some default_server => ret default_server
  | None =>
      domain <- lift (wire_domain E self) ;;
      data <- whois_request E domain IANA_SERVER default_port ;;
      match extract_whois_server data None with
      | None =>
          lift (Raise (WhoisException
                         (lit "No root WHOIS server found for domain.")))
      | Some new_server => ret new_server
      end
  end.

(** What [get_whois_raw] returns, by [with_server_list]. *)
Inductive raw :=
| Responses (previous : list str)
| ResponsesAndServers (previous server_list : list str).

(** [server or self.get_root_server()] *)
Definition server_or_root (E : env) (self : t) (server : option str) : M str :=
  match server with
  | Some (c :: s) => ret (c :: s)
  | _ => get_root_server E self
  end.

Fixpoint get_whois_raw (fuel : nat) (E : env) (self : t)
    (server : option str) (previous : option (list str))
    (never_cut with_server_list : bool) (server_list : option (list str))
  : M raw :=
  match fuel with
  | O => lift OutOfFuel
  | S fuel' =>
      let previous := or_empty previous in
      let server_list := or_empty server_list in
      whois_server <- server_or_root E self server ;;
      domain <- lift (wire_domain E self) ;;
      let request := prepare_request domain whois_server in
      response <- whois_request E request whois_server default_port ;;
      processed <- lift (_process_response response domain whois_server
                           previous server_list never_cut) ;;
      let '(response, previous, server_list) := processed in
      match extract_whois_server response (Some server_list) with
      | Some new_server =>
          get_whois_raw fuel' E self (Some new_server) (Some previous)
            never_cut with_server_list (Some server_list)
      | None =>
          ret (if with_server_list
               then ResponsesAndServers previous server_list
               else Responses previous)
      end
  end.

End WhoisParser.

(* ================================================================== *)
(** * The functions of the module

    A keyword argument is an [option]: [None] when the caller leaves it
    out. *)

Definition get_whois_raw (fuel : nat) (E : env) (domain : str)
    (server : option (option str)) (rfc3490 never_cut : option bool)
  : M WhoisParser.raw :=
  let server := match server with Some s => s | None => Some (lit "") end in
  let rfc3490 := match rfc3490 with Some b => b | None => true end in
  let never_cut := match never_cut with Some b => b | None => false end in
  let parser := WhoisParser.Build domain rfc3490 in
  WhoisParser.get_whois_raw fuel E parser server None never_cut false None.

Definition get_root_server (E : env) (domain : str) : M str :=
  WhoisParser.get_root_server E (WhoisParser.Build domain true).

(* ================================================================== *)
(** * The specification's side

    Definitions that follow the words of the specification, to be compared
    with the code above, and the concrete peers used in examples. *)

(** ** The quirk table of the Query Formatter: a rule is a guard on the
    domain and the server and a rewriting of the domain; the first rule
    whose guard holds applies, and the domain goes unmodified when none
    does. *)
Record quirk := Quirk {
  quirk_guard : str -> str -> bool;
  quirk_rewrite : str -> str
}.

Definition quirk_table : list quirk :=
  [ Quirk (fun _ server => str_eqb server (lit "whois.jprs.jp"))
          (fun domain => domain ++ lit "/e");
    Quirk (fun domain server =>
             endswith domain (lit ".de")
             && (str_eqb server (lit "whois.denic.de")
                 || str_eqb server (lit "de.whois-servers.net")))
          (fun domain => lit "-T dn,ace " ++ domain);
    Quirk (fun _ server => str_eqb server (lit "whois.verisign-grs.com"))
          (fun domain => lit "=" ++ domain) ].

Fixpoint first_quirk (table : list quirk) (domain server : str) : str :=
  match table with
  | [] => domain
  | q :: rest =>
      if quirk_guard q domain server then quirk_rewrite q domain
      else first_quirk rest domain server
  end.

Definition format_request (domain server : str) : str :=
  first_quirk quirk_table domain server.

(** ** The Static Override Table read as the specification words it: the
    server of the longest key that ends the domain, under a comparison
    [ends] of the end of the domain with a key. *)
Definition lower_ascii (c : char) : char :=
  if is_upper_ascii c then (c + 32)%N else c.

Definition endswith_nocase (s p : str) : bool :=
  endswith (map lower_ascii s) (map lower_ascii p).

Fixpoint longest_match (ends : str -> str -> bool) (table : list (str * str))
    (domain : str) : option (str * str) :=
  match table with
  | [] => None
  | (pattern, server) :: rest =>
      let later := longest_match ends rest domain in
      if ends domain pattern then
        match later with
        | Some (pattern', server') =>
            if length pattern <? length pattern'
            then Some (pattern', server')
            else Some (pattern, server)
        | None => Some (pattern, server)
        end
      else later
  end.

Definition locate_static (ends : str -> str -> bool) (domain : str)
  : option str :=
  option_map snd (longest_match ends WhoisParser.root_servers domain).

(** "For every domain whose suffix matches a key of the table, the table's
    server for the longest matching suffix is returned without any network
    call": the log is left as it was. *)
Definition static_override (ends : str -> str -> bool) : Prop :=
  forall (E : env) (domain server : str) (log : list exchange),
    locate_static ends domain = Some server ->
    get_root_server E domain log = (Ok server, log).

(** ** Peers for the examples *)

(** No server can be reached. *)
Definition unreachable : env :=
  Env (fun _ _ _ => None) (fun _ => None).

Definition no_root_message : str :=
  lit "No root WHOIS server found for domain.".

(** ** The Referral Extractor, in the words of the specification: a label
    among [refer], [whois server], [referral url], [registrar whois], case
    ignored, followed by a colon, whitespace (any amount, none included),
    and a token, the characters up to the next whitespace, with a dot that
    is neither its first nor its last character.  The text is scanned left
    to right, the scan resuming after a token it has found. *)
Definition referral_labels : list str :=
  [ lit "refer"; lit "whois server"; lit "referral url";
    lit "registrar whois" ].

(** What is left of [s] after the label, when [s] begins with it. *)
Fixpoint after_label (label s : str) {struct label} : option str :=
  match label, s with
  | [], _ => Some s
  | p :: label', t :: s' =>
      if Re.lit_ignorecase p t then after_label label' s' else None
  | _ :: _, [] => None
  end.

(** The longest run of characters satisfying [p] at the head of [s], and
    what follows it. *)
Fixpoint span (p : char -> bool) (s : str) : str * str :=
  match s with
  | t :: s' =>
      if p t then (t :: fst (span p s'), snd (span p s')) else ([], s)
  | [] => ([], [])
  end.

Definition notspace (t : char) : bool := negb (isspace t).

(** Some character but the last is a dot. *)
Fixpoint dot_then_more (s : str) : bool :=
  match s with
  | c :: ((_ :: _) as s') => (c =? 46)%N || dot_then_more s'
  | _ => false
  end.

Definition interior_dot (token : str) : bool :=
  match token with
  | _ :: s => dot_then_more s
  | [] => false
  end.

(** After the label: the colon, the whitespace, the token. *)
Definition token_after (s : str) : option (str * str) :=
  match s with
  | c :: s1 =>
      if (c =? 58)%N then
        let s2 := snd (span isspace s1) in
        let token := fst (span notspace s2) in
        if interior_dot token then Some (token, snd (span notspace s2))
        else None
      else None
  | [] => None
  end.

Definition label_then_token (label s : str) : option (str * str) :=
  match after_label label s with
  | Some s1 => token_after s1
  | None => None
  end.

Fixpoint first_label (labels : list str) (s : str) : option (str * str) :=
  match labels with
  | [] => None
  | label :: rest =>
      match label_then_token label s with
      | Some r => Some r
      | None => first_label rest s
      end
  end.

(** A referral at the head of [s]: its token and the text after it. *)
Definition referral_at (s : str) : option (str * str) :=
  first_label referral_labels s.

Fixpoint referrals_from (skip : nat) (s : str) : list str :=
  match s with
  | [] => []
  | _ :: s' =>
      match skip with
      | S n => referrals_from n s'
      | O =>
          match referral_at s with
          | Some (token, rest) =>
              token :: referrals_from (length s - length rest - 1) s'
          | None => referrals_from 0 s'
          end
      end
  end.

Definition referral_tokens (s : str) : list str := referrals_from 0 s.

(** A token qualifies: it is not a visited server and has no ["://"]. *)
Definition qualifies (visited : list str) (token : str) : Prop :=
  ~ In token visited /\ ~ (exists a b, token = a ++ lit "://" ++ b).

(** The parts of [whois_regexp], named: the labels, and what follows them
    (the colon, the whitespace, the group). *)
Definition labels_pattern : Re.regex :=
  Re.Alt (Re.word (lit "refer"))
    (Re.Alt (Re.word (lit "whois server"))
    (Re.Alt (Re.word (lit "referral url"))
    (Re.Alt (Re.word (lit "whois server"))
            (Re.word (lit "registrar whois"))))).

Definition token_pattern : Re.regex :=
  Re.Group
    (Re.Cat (Re.Plus Re.NotSpace)
    (Re.Cat (Re.Chr 46%N) (Re.Plus Re.NotSpace))).

Definition colon_pattern : Re.regex :=
  Re.Cat (Re.Chr 58%N) (Re.Cat (Re.Star Re.Space) token_pattern).

(** The continuation at the end of a pattern. *)
Definition accept : str -> option str -> option Re.hit :=
  fun rest g => Some (g, rest).

Definition as_hit (r : str * str) : Re.hit := (Some (fst r), snd r).

(** The test of the loop of [extract_whois_server], on a token. *)
Definition qualifiesb (visited : list str) (token : str) : bool :=
  negb (str_in token visited) && negb (contains (lit "://") token).

(** ** Record selection *)



Definition verisign : str := lit "whois.verisign-grs.com".

(** What the loop of [_process_response] leaves in [response]. *)
Definition selected (p : list Re.atom) (response : str) : str :=
  match WhoisParser.first_record p (split response [LF; LF]) with
  | Some record => record
  | None => response
  end.


(** A peer that answers every request with the same ASCII text. *)
Definition answers_with (text : str) : env :=
  Env (fun _ _ _ => Some (fun _ => Codec.encode_ascii text)) (fun _ => None).

(** The two-block response of the specification. *)
Definition other_record : str :=
  lit "Domain Name: OTHER.COM" ++ [LF] ++ lit "Registrar: A".

Definition example_record : str :=
  lit "Domain Name: EXAMPLE.COM" ++ [LF] ++ lit "Registrar: B" ++ [LF].

Definition two_records : str := other_record ++ [LF; LF] ++ example_record.


(** ** The referral chase, read off the log *)

(** What [_server_process_result] makes of a buffer. *)
Definition decoded (buff : bytes) : str :=
  match Codec.decode_utf8 buff with
  | Some text => text
  | None => map Byte.to_N buff
  end.

Definition reply_text (ex : exchange) : str :=
  match ex_reply ex with
  | Some buff => decoded buff
  | None => []
  end.

(** The response as [_process_response] returns it. *)
Definition processed (domain server response : str) : outcome str :=
  if str_eqb server verisign
  then WhoisParser.select_record response domain
  else Ok response.

(** The text scanned for a referral after an exchange, and the entry the
    exchange leaves in the chain. *)
Definition scanned (domain : str) (ex : exchange) : str :=
  match processed domain (ex_server ex) (reply_text ex) with
  | Ok r => r
  | _ => reply_text ex
  end.

Definition chain_entry (domain : str) (never_cut : bool) (ex : exchange)
  : str :=
  if never_cut then reply_text ex else scanned domain ex.

(** Exchange number [n] is a query of the chase for [domain]: on port 43,
    with the request of [prepare_request], answered by the peer, and its
    response could be processed. *)
Definition chase_query (E : env) (domain : str) (n : nat) (ex : exchange)
  : Prop :=
  ex_port ex = WhoisParser.default_port
  /\ ex_request ex = WhoisParser.prepare_request domain (ex_server ex)
  /\ (exists peer buff,
         net E n (ex_server ex) WhoisParser.default_port = Some peer
         /\ peer (ex_request ex) = Some buff
         /\ ex_reply ex = Some buff)
  /\ (exists r, processed domain (ex_server ex) (reply_text ex) = Ok r).

(** The exchanges of a chase that starts as exchange [n] with [visited] the
    servers already in the list: after each exchange its server joins the
    list, and the next server is the one extracted from the scanned text
    against that list; the chase ends at the exchange where nothing is
    extracted. *)
Inductive chase (E : env) (domain : str)
  : nat -> list str -> list exchange -> Prop :=
| chase_end (n : nat) (visited : list str) (ex : exchange) :
    chase_query E domain n ex ->
    WhoisParser.extract_whois_server (scanned domain ex)
      (Some (visited ++ [ex_server ex])) = None ->
    chase E domain n visited [ex]
| chase_follow (n : nat) (visited : list str) (ex ex' : exchange)
    (exs : list exchange) :
    chase_query E domain n ex ->
    WhoisParser.extract_whois_server (scanned domain ex)
      (Some (visited ++ [ex_server ex])) = Some (ex_server ex') ->
    chase E domain (S n) (visited ++ [ex_server ex]) (ex' :: exs) ->
    chase E domain n visited (ex :: ex' :: exs).

Definition chain_of (r : WhoisParser.raw) : list str :=
  match r with
  | WhoisParser.Responses previous => previous
  | WhoisParser.ResponsesAndServers previous _ => previous
  end.

(** Every referral candidate of every response, and of every block of a
    response, is a server of [U]. *)
Definition referrals_within (E : env) (U : list str) : Prop :=
  forall n server port peer request buff block,
    net E n server port = Some peer ->
    peer request = Some buff ->
    In block (decoded buff :: split (decoded buff) [LF; LF]) ->
    incl (referral_tokens block) U.

(** The exchange with the root server that precedes a chase, if any. *)
Definition root_lookup (root : list exchange) : Prop :=
  root = []
  \/ exists request reply,
      root = [Exchange WhoisParser.IANA_SERVER WhoisParser.default_port
                request reply].

(** "No WHOIS server is queried twice": the servers of the log of a
    resolution are all different. *)
Definition no_server_queried_twice : Prop :=
  forall (fuel : nat) (E : env) (domain : str) (server : option (option str))
         (rfc3490 never_cut : option bool) (r : WhoisParser.raw)
         (log : list exchange),
    get_whois_raw fuel E domain server rfc3490 never_cut [] = (Ok r, log) ->
    NoDup (map ex_server log).

(** "The never-cut mode yields the responses in query order": with
    [never_cut] true and a server given, the chain is the list of the
    responses in the order of the log. *)
Definition never_cut_in_query_order : Prop :=
  forall (fuel : nat) (E : env) (domain server : str) (chain : list str)
         (log : list exchange),
    server <> [] ->
    get_whois_raw fuel E domain (Some (Some server)) None (Some true) []
    = (Ok (WhoisParser.Responses chain), log) ->
    chain = map reply_text log.

(** Peers: the root server refers to [whois.pir.org], which refers back to
    the root server. *)
Definition refers_back : env :=
  Env (fun _ server _ =>
         Some (fun _ =>
                 if str_eqb server WhoisParser.IANA_SERVER
                 then Codec.encode_ascii (lit "refer: whois.pir.org")
                 else Codec.encode_ascii
                        (lit "Registrar WHOIS Server: whois.iana.org")))
      (fun _ => None).

(** Peers: [whois.a.example] refers to [whois.b.example], which refers to
    nobody. *)
Definition two_hops : env :=
  Env (fun _ server _ =>
         Some (fun _ =>
                 if str_eqb server (lit "whois.a.example")
                 then Codec.encode_ascii (lit "refer: whois.b.example")
                 else Codec.encode_ascii (lit "Domain not found.")))
      (fun _ => None).

(** The servers of [U] that are not yet in the list. *)
Definition unvisited (U visited : list str) : list str :=
  filter (fun u => negb (str_in u visited)) U.

(** [cut] is what [_process_response] can leave of [response]: the response
    itself or one of its blocks. *)
Definition cut_of (response cut : str) : Prop :=
  In cut (response :: split response [LF; LF]).

(** A character of the domain, as the pattern of [_process_response] reads
    it: a dot stands for any character but a newline, any other character
    for its upper-case form. *)
Definition reads_as (c x : char) : Prop :=
  if (upper_ascii c =? 46)%N then x <> LF else x = upper_ascii c.

(** Two records; the first is not the record of [a.com]. *)
Definition axcom_record : str :=
  lit "Domain Name: AXCOM" ++ [LF] ++ lit "Registrar: A".

Definition wildcard_records : str :=
  axcom_record ++ [LF; LF]
    ++ lit "Domain Name: A.COM" ++ [LF] ++ lit "Registrar: B" ++ [LF].

(** A domain whose pattern in [_process_response] is within the patterns
    embedded here: ASCII characters, none of them a special character of
    patterns other than the dot.  For another domain the pattern may not
    compile ([re.error]) or may match as a regular expression does. *)
Definition plain_char (c : char) : bool :=
  is_ascii c && ((c =? 46)%N || negb (Re.is_special c)).

Definition plain_domain (domain : str) : bool := forallb plain_char domain.

(** The labels of a name pass the check of the [idna] codec on an ASCII
    name: every label but the last has 1 to 63 characters and the last has at
    most 63.  The empty name passes. *)
Definition labels_fit (domain : str) : bool :=
  match domain with
  | [] => true
  | _ :: _ =>
      forallb label_ok (removelast (split domain (lit ".")))
      && (length (last (split domain (lit ".")) []) <? 64)
  end.

(** "ASCII-only domains are unchanged by IDNA encoding." *)
Definition ascii_domains_unchanged : Prop :=
  forall (E : env) (domain : str),
    forallb is_ascii domain = true ->
    WhoisParser.convert_to_rfc3490 E domain = Ok domain.

(** A call with lists of the caller: under [refers_back], no server given,
    and both servers already in the caller's list. *)
Definition get_whois_raw_with_lists_example
  : outcome WhoisParser.raw * list exchange :=
  WhoisParser.get_whois_raw 3 refers_back
    (WhoisParser.Build (lit "example.org") true) None
    (Some [lit "earlier"]) false true
    (Some [lit "whois.iana.org"; lit "whois.pir.org"]) [].

(* ================================================================== *)
(** * Facts about strings *)

Lemma str_eqb_eq (a b : str) : str_eqb a b = true <-> a = b.
Proof.
  revert b; induction a as [|x a IH]; intros [|y b]; simpl;
    try (split; [discriminate | discriminate]); [tauto|].
  rewrite andb_true_iff, N.eqb_eq, IH.
  split; [intros [-> ->]; reflexivity | intros H; inversion H; auto].
Qed.

Lemma str_eqb_refl (a : str) : str_eqb a a = true.
Proof. apply str_eqb_eq; reflexivity. Qed.

Lemma str_eqb_neq (a b : str) : str_eqb a b = false <-> a <> b.
Proof.
  rewrite <- str_eqb_eq. destruct (str_eqb a b); split; congruence.
Qed.

Lemma str_in_In (x : str) (l : list str) : str_in x l = true <-> In x l.
Proof.
  induction l as [|y l IH]; simpl; [split; [discriminate | tauto]|].
  rewrite orb_true_iff, str_eqb_eq, IH. split; intros [H|H]; auto.
Qed.

Lemma str_in_false (x : str) (l : list str) : str_in x l = false <-> ~ In x l.
Proof.
  rewrite <- str_in_In. destruct (str_in x l); split; congruence.
Qed.

Lemma startswith_iff (s p : str) :
  startswith s p = true <-> exists t, s = p ++ t.
Proof.
  revert s; induction p as [|c p IH]; intros s; simpl.
  - split; [intros _; exists s; reflexivity | reflexivity].
  - destruct s as [|d s].
    + split; [discriminate | intros [t H]; discriminate].
    + rewrite andb_true_iff, N.eqb_eq, IH. split.
      * intros [-> [t ->]]. exists t; reflexivity.
      * intros [t H]. inversion H; subst. split; [reflexivity | exists t; reflexivity].
Qed.

Lemma endswith_iff (s p : str) :
  endswith s p = true <-> exists t, s = t ++ p.
Proof.
  unfold endswith. rewrite andb_true_iff, Nat.leb_le, str_eqb_eq. split.
  - intros [Hle H]. exists (firstn (length s - length p) s).
    rewrite <- (firstn_skipn (length s - length p) s) at 1.
    rewrite H. reflexivity.
  - intros [t ->]. rewrite length_app. split; [lia|].
    replace (length t + length p - length p) with (length t + 0) by lia.
    rewrite skipn_app, Nat.add_0_r, skipn_all.
    replace (length t - length t) with 0 by lia. reflexivity.
Qed.

Lemma contains_iff (p s : str) :
  contains p s = true <-> exists a b, s = a ++ p ++ b.
Proof.
  induction s as [|c s IH].
  - simpl. rewrite orb_false_r, startswith_iff. split.
    + intros [t H]. exists [], t. exact H.
    + intros [a [b H]]. destruct a; [exists b; exact H | discriminate].
  - cbn [contains]. rewrite orb_true_iff, startswith_iff, IH. split.
    + intros [[t H] | [a [b H]]].
      * exists [], t. exact H.
      * exists (c :: a), b. rewrite H. reflexivity.
    + intros [[|d a] [b H]].
      * left. exists b. exact H.
      * right. inversion H; subst. exists a, b. reflexivity.
Qed.

(* ================================================================== *)
(** * The Query Formatter *)

(** C5.  [prepare_request] applies the first matching rule of the quirk
    table, in the order jprs, DENIC, verisign, and returns the domain as it
    is when no rule matches; the three requests of the specification come
    out as stated. *)
Theorem C5_prepare_request_first_quirk :
  (forall domain server,
      WhoisParser.prepare_request domain server = format_request domain server)
  /\ (forall domain, WhoisParser.prepare_request domain (lit "whois.jprs.jp")
                     = domain ++ lit "/e")
  /\ (forall stem server,
         server = lit "whois.denic.de" \/ server = lit "de.whois-servers.net" ->
         WhoisParser.prepare_request (stem ++ lit ".de") server
         = lit "-T dn,ace " ++ stem ++ lit ".de")
  /\ (forall domain, WhoisParser.prepare_request domain (lit "whois.verisign-grs.com")
                     = lit "=" ++ domain)
  /\ (forall domain server,
         server <> lit "whois.jprs.jp" ->
         server <> lit "whois.verisign-grs.com" ->
         ((forall stem, domain <> stem ++ lit ".de")
          \/ (server <> lit "whois.denic.de"
              /\ server <> lit "de.whois-servers.net")) ->
         WhoisParser.prepare_request domain server = domain)
  /\ WhoisParser.prepare_request (lit "example.de") (lit "whois.denic.de")
     = lit "-T dn,ace example.de"
  /\ WhoisParser.prepare_request (lit "example.com") (lit "whois.verisign-grs.com")
     = lit "=example.com"
  /\ WhoisParser.prepare_request (lit "example.org") (lit "whois.opensrs.net")
     = lit "example.org".
Proof.
  split; [|split; [|split; [|split; [|split; [|repeat split]]]]].
  - intros domain server. unfold WhoisParser.prepare_request, format_request.
    simpl. destruct (str_eqb server (lit "whois.jprs.jp")); [reflexivity|].
    destruct (endswith domain (lit ".de")
              && (str_eqb server (lit "whois.denic.de")
                  || str_eqb server (lit "de.whois-servers.net")));
      [reflexivity|].
    destruct (str_eqb server (lit "whois.verisign-grs.com")); reflexivity.
  - intros domain. unfold WhoisParser.prepare_request.
    rewrite str_eqb_refl. reflexivity.
  - intros stem server Hs. unfold WhoisParser.prepare_request.
    assert (He : endswith (stem ++ lit ".de") (lit ".de") = true)
      by (apply endswith_iff; exists stem; reflexivity).
    rewrite He. destruct Hs as [-> | ->]; reflexivity.
  - intros domain. unfold WhoisParser.prepare_request.
    replace (str_eqb (lit "whois.verisign-grs.com") (lit "whois.jprs.jp"))
      with false by reflexivity.
    replace (str_eqb (lit "whois.verisign-grs.com") (lit "whois.denic.de"))
      with false by reflexivity.
    replace (str_eqb (lit "whois.verisign-grs.com") (lit "de.whois-servers.net"))
      with false by reflexivity.
    rewrite andb_false_r, str_eqb_refl. reflexivity.
  - intros domain server H1 H2 H3. unfold WhoisParser.prepare_request.
    apply str_eqb_neq in H1, H2. rewrite H1, H2.
    destruct H3 as [H3 | [H3 H4]].
    + replace (endswith domain (lit ".de")) with false; [reflexivity|].
      symmetry. destruct (endswith domain (lit ".de")) eqn:E; [|reflexivity].
      apply endswith_iff in E. destruct E as [t E]. elim (H3 t E).
    + apply str_eqb_neq in H3, H4. rewrite H3, H4, andb_false_r. reflexivity.
Qed.

(* ================================================================== *)
(** * Decoding *)

(** C8.  [_server_process_result] returns the UTF-8 reading of the buffer
    when there is one and its ISO-8859-1 reading otherwise, for every
    buffer: it never raises, so its [ValueError] is unreachable; the single
    byte E9, which is not UTF-8, is read as U+00E9. *)
Theorem C8_decode_falls_back_and_never_raises :
  (forall (result : bytes) (server : str),
      WhoisParser._server_process_result result server
      = Ok (match Codec.decode_utf8 result with
            | Some text => text
            | None => map Byte.to_N result
            end))
  /\ (forall (result : bytes) (server : str) (e : exn),
         WhoisParser._server_process_result result server <> Raise e)
  /\ Codec.decode_utf8 [Byte.xe9] = None
  /\ WhoisParser._server_process_result [Byte.xe9] (lit "whois.example.net")
     = Ok [233%N].
Proof.
  assert (H : forall (result : bytes) (server : str),
      WhoisParser._server_process_result result server
      = Ok (match Codec.decode_utf8 result with
            | Some text => text
            | None => map Byte.to_N result
            end)).
  { intros result server. unfold WhoisParser._server_process_result.
    simpl. destruct (Codec.decode_utf8 result); reflexivity. }
  split; [exact H|]. split; [|split; reflexivity].
  intros result server e. rewrite H. discriminate.
Qed.

(* ================================================================== *)
(** * The Static Override Table *)

Lemma endswith_nested (d k1 k2 : str) :
  endswith d k1 = true -> endswith d k2 = true ->
  length k1 <= length k2 -> endswith k2 k1 = true.
Proof.
  rewrite !endswith_iff. intros [t1 H1] [t2 H2] Hlen. subst d.
  apply app_eq_app in H2. destruct H2 as [l [[_ H] | [_ H]]].
  - exists l. exact H.
  - assert (l = []).
    { apply (f_equal (@length _)) in H. rewrite length_app in H.
      destruct l; [reflexivity | simpl in H; lia]. }
    subst l. exists []. simpl in H. rewrite H. reflexivity.
Qed.

Lemma table_keys_exclusive (d k1 k2 : str) :
  endswith d k1 = true -> endswith d k2 = true ->
  endswith k2 k1 = false -> endswith k1 k2 = false -> False.
Proof.
  intros H1 H2 N1 N2.
  destruct (Nat.le_ge_cases (length k1) (length k2)) as [L|L].
  - rewrite (endswith_nested _ _ _ H1 H2 L) in N1. discriminate.
  - rewrite (endswith_nested _ _ _ H2 H1 L) in N2. discriminate.
Qed.

Ltac keys_clash :=
  match goal with
  | H1 : endswith ?d ?a = true, H2 : endswith ?d ?b = true |- _ =>
      exfalso; apply (table_keys_exclusive _ _ _ H1 H2); reflexivity
  end.

(** No key of the table ends another, so the first key that ends the domain
    is the only one, and the longest. *)
Lemma get_default_server_longest (domain : str) :
  WhoisParser.get_default_server domain = locate_static endswith domain.
Proof.
  unfold WhoisParser.get_default_server, locate_static, WhoisParser.root_servers.
  cbn [WhoisParser.first_suffix longest_match].
  destruct (endswith domain (lit ".ac.uk")) eqn:E1;
    destruct (endswith domain (lit ".ps")) eqn:E2;
    destruct (endswith domain (lit ".buzz")) eqn:E3;
    destruct (endswith domain (lit ".moe")) eqn:E4;
    destruct (endswith domain (lit "example.com")) eqn:E5;
    try reflexivity; keys_clash.
Qed.

Lemma get_default_server_moe (stem : str) :
  WhoisParser.get_default_server (stem ++ lit ".moe") = Some (lit "whois.nic.moe").
Proof.
  assert (E4 : endswith (stem ++ lit ".moe") (lit ".moe") = true)
    by (apply endswith_iff; exists stem; reflexivity).
  unfold WhoisParser.get_default_server, WhoisParser.root_servers.
  cbn [WhoisParser.first_suffix].
  destruct (endswith (stem ++ lit ".moe") (lit ".ac.uk")) eqn:E1;
    [keys_clash|].
  destruct (endswith (stem ++ lit ".moe") (lit ".ps")) eqn:E2; [keys_clash|].
  destruct (endswith (stem ++ lit ".moe") (lit ".buzz")) eqn:E3; [keys_clash|].
  rewrite E4. reflexivity.
Qed.

(** C4, as amended.  When a key of the Static Override Table ends the
    domain, the comparison being exact (case-sensitive), [get_root_server]
    returns the server of the longest such key and makes no network call:
    the log of exchanges is unchanged.  Every domain ending in [.moe] gets
    [whois.nic.moe]. *)
Theorem C4_static_override_exact_suffix :
  forall (E : env) (domain server : str) (log : list exchange),
    locate_static endswith domain = Some server ->
    get_root_server E domain log = (Ok server, log)
    /\ (forall stem,
           get_root_server E (stem ++ lit ".moe") log
           = (Ok (lit "whois.nic.moe"), log)).
Proof.
  intros E domain server log H. split.
  - unfold get_root_server, WhoisParser.get_root_server.
    cbn [WhoisParser.domain].
    rewrite get_default_server_longest, H. reflexivity.
  - intros stem. unfold get_root_server, WhoisParser.get_root_server.
    cbn [WhoisParser.domain].
    rewrite get_default_server_moe. reflexivity.
Qed.

Lemma C4_static_override_witness :
  locate_static endswith (lit "foo.moe") = Some (lit "whois.nic.moe")
  /\ get_root_server unreachable (lit "foo.moe") []
     = (Ok (lit "whois.nic.moe"), []).
Proof.
  split; [reflexivity|].
  apply (C4_static_override_exact_suffix unreachable (lit "foo.moe")
           (lit "whois.nic.moe") []).
  reflexivity.
Defined.

(** C4, as stated, fails: [FOO.MOE] ends with the key [.moe] when case is
    ignored, yet the code does not find the key and goes to the network (the
    exchange with [whois.iana.org] is in the log). *)
Lemma C4_case_insensitive_counterexample :
  ~ static_override endswith_nocase.
Proof.
  intros H.
  specialize (H unreachable (lit "FOO.MOE") (lit "whois.nic.moe") [] eq_refl).
  vm_compute in H. discriminate H.
Qed.

(* ================================================================== *)
(** * The Domain Normalizer *)

Lemma encode_ascii_some (s : str) :
  forallb is_ascii s = true ->
  exists b, Codec.encode_ascii s = Some b /\ map Byte.to_N b = s.
Proof.
  induction s as [|c s IH]; simpl; [intros _; exists []; auto|].
  rewrite andb_true_iff. intros [Hc Hs]. rewrite Hc.
  destruct (IH Hs) as [b [Hb Hm]]. rewrite Hb.
  destruct (Byte.of_N c) as [x|] eqn:Hx.
  - exists (x :: b). split; [reflexivity|]. simpl.
    apply Byte.to_of_N in Hx. rewrite Hx, Hm. reflexivity.
  - apply Byte.of_N_None_iff in Hx. unfold is_ascii in Hc.
    apply N.ltb_lt in Hc. lia.
Qed.

Lemma encode_ascii_none (s : str) :
  forallb is_ascii s = false -> Codec.encode_ascii s = None.
Proof.
  induction s as [|c s IH]; simpl; [discriminate|].
  destruct (is_ascii c); simpl; [|reflexivity].
  intros H. rewrite (IH H). destruct (Byte.of_N c); reflexivity.
Qed.

(** The labels of a name fit: what the codec's fast path checks. *)
Lemma convert_ascii (E : env) (domain : str) :
  forallb is_ascii domain = true ->
  WhoisParser.convert_to_rfc3490 E domain
  = match domain with
    | [] => Ok []
    | _ :: _ =>
        if forallb label_ok (removelast (split domain (lit ".")))
           && (length (last (split domain (lit ".")) []) <? 64)
        then Ok domain
        else Raise UnicodeError
    end.
Proof.
  intros Ha. unfold WhoisParser.convert_to_rfc3490, idna_encode.
  destruct domain as [|c d]; [reflexivity|].
  destruct (encode_ascii_some _ Ha) as [b [Hb Hm]]. rewrite Hb.
  destruct (forallb label_ok (removelast (split (c :: d) (lit ".")))
            && (length (last (split (c :: d) (lit ".")) []) <? 64));
    [|reflexivity].
  cbn [rbind]. unfold Codec.decode_ascii. rewrite Hm, Ha. reflexivity.
Qed.

Lemma convert_ascii_fit (E : env) (domain : str) :
  forallb is_ascii domain = true ->
  WhoisParser.convert_to_rfc3490 E domain
  = if labels_fit domain then Ok domain else Raise UnicodeError.
Proof.
  intros Ha. rewrite (convert_ascii E _ Ha).
  destruct domain as [|c d]; reflexivity.
Qed.

Lemma convert_gives_ascii (E : env) (domain encoded : str) :
  WhoisParser.convert_to_rfc3490 E domain = Ok encoded ->
  forallb is_ascii encoded = true.
Proof.
  unfold WhoisParser.convert_to_rfc3490.
  destruct (idna_encode E domain) as [b|e| |]; cbn [rbind]; try discriminate.
  unfold Codec.decode_ascii.
  destruct (forallb is_ascii (map Byte.to_N b)) eqn:Ha; [|discriminate].
  intros H. injection H as <-. exact Ha.
Qed.

(** C9, as amended.  [convert_to_rfc3490] returns unchanged every ASCII-only
    domain whose labels pass the check of the codec (1 to 63 characters, the
    last label 0 to 63), so converting it twice gives the domain again; an
    ASCII-only domain whose labels do not pass raises [UnicodeError].  For
    any domain, what a conversion returns is ASCII, and converting that
    again returns it unchanged when its labels pass and raises
    [UnicodeError] when they do not. *)
Theorem C9_normalization_idempotent_on_ascii :
  forall (E : env) (domain : str),
    forallb is_ascii domain = true ->
    labels_fit domain = true ->
    WhoisParser.convert_to_rfc3490 E domain = Ok domain
    /\ rbind (WhoisParser.convert_to_rfc3490 E domain)
             (WhoisParser.convert_to_rfc3490 E) = Ok domain
    /\ (forall other,
           forallb is_ascii other = true ->
           labels_fit other = false ->
           WhoisParser.convert_to_rfc3490 E other = Raise UnicodeError)
    /\ (forall any encoded,
           WhoisParser.convert_to_rfc3490 E any = Ok encoded ->
           forallb is_ascii encoded = true
           /\ WhoisParser.convert_to_rfc3490 E encoded
              = if labels_fit encoded then Ok encoded
                else Raise UnicodeError).
Proof.
  intros E domain Ha Hf.
  assert (H : WhoisParser.convert_to_rfc3490 E domain = Ok domain)
    by (rewrite (convert_ascii_fit E _ Ha), Hf; reflexivity).
  split; [exact H|]. split; [rewrite H; exact H|]. split.
  - intros other Ho Hn. rewrite (convert_ascii_fit E _ Ho), Hn. reflexivity.
  - intros any encoded He.
    pose proof (convert_gives_ascii _ _ _ He) as Hascii.
    split; [exact Hascii | exact (convert_ascii_fit E _ Hascii)].
Qed.

Lemma C9_normalization_witness :
  forallb is_ascii (lit "example.org") = true
  /\ labels_fit (lit "example.org") = true
  /\ WhoisParser.convert_to_rfc3490 unreachable (lit "example.org")
     = Ok (lit "example.org")
  /\ WhoisParser.convert_to_rfc3490 unreachable (lit "xn--bcher-kva.example")
     = Ok (lit "xn--bcher-kva.example").
Proof.
  split; [reflexivity|]. split; [reflexivity|]. split.
  - exact (proj1 (C9_normalization_idempotent_on_ascii unreachable
                    (lit "example.org") eq_refl eq_refl)).
  - exact (proj1 (C9_normalization_idempotent_on_ascii unreachable
                    (lit "xn--bcher-kva.example") eq_refl eq_refl)).
Defined.

(** C9, as stated, fails: [a..com] is ASCII-only and is not returned
    unchanged; the codec refuses its empty label. *)
Lemma C9_empty_label_counterexample : ~ ascii_domains_unchanged.
Proof.
  intros H. specialize (H unreachable (lit "a..com") eq_refl).
  vm_compute in H. discriminate H.
Qed.

(* ================================================================== *)
(** * The Root Server Locator *)

Lemma convert_raises (E : env) (domain : str) (e : exn) :
  WhoisParser.convert_to_rfc3490 E domain = Raise e -> e = UnicodeError.
Proof.
  unfold WhoisParser.convert_to_rfc3490, idna_encode.
  destruct domain as [|c d]; [discriminate|].
  destruct (Codec.encode_ascii (c :: d)) as [b|].
  - destruct (forallb label_ok _ && _); cbn [rbind].
    + destruct (Codec.decode_ascii b); congruence.
    + congruence.
  - destruct (idna_nonascii E (c :: d)) as [b|]; cbn [rbind].
    + destruct (Codec.decode_ascii b); congruence.
    + congruence.
Qed.

Lemma wire_domain_raises (E : env) (self : WhoisParser.t) (e : exn) :
  WhoisParser.wire_domain E self = Raise e -> e = UnicodeError.
Proof.
  unfold WhoisParser.wire_domain, WhoisParser.domain_rfc3490.
  destruct (WhoisParser.rfc3490 self); [apply convert_raises | discriminate].
Qed.

(** [_server_request] by the peer that [connect] reaches. *)
Lemma server_request_net (E : env) (request server : str) (port : N)
    (log : list exchange) :
  WhoisParser._server_request E request server port log
  = match net E (length log) server port with
    | None =>
        (Raise (connect_failure E server port),
         log ++ [Exchange server port request None])
    | Some peer =>
        if Codec.utf8_encodable request then
          (match peer request with
           | Some b => Ok b
           | None => Raise SocketError
           end,
           log ++ [Exchange server port request (peer request)])
        else
          (Raise UnicodeEncodeError,
           log ++ [Exchange server port request None])
    end.
Proof.
  unfold WhoisParser._server_request, net, connect_failure.
  destruct (connect_error E server port) as [e|]; [reflexivity|].
  destruct (wire E (length log) server port); reflexivity.
Qed.

Lemma connect_failure_cases (E : env) (server : str) (port : N) :
  connect_failure E server port = SocketError
  \/ connect_failure E server port = TypeError
  \/ connect_failure E server port = OverflowError.
Proof.
  unfold connect_failure, connect_error.
  destruct (host_bytes E server) as [name|]; [|auto].
  destruct (existsb (Byte.eqb Byte.x00) name); [auto|].
  destruct (65535 <? port)%N; auto.
Qed.

(** On port 43 the port is never refused. *)
Lemma connect_failure_default_port (E : env) (server : str) :
  connect_failure E server WhoisParser.default_port = SocketError
  \/ connect_failure E server WhoisParser.default_port = TypeError.
Proof.
  unfold connect_failure, connect_error.
  destruct (host_bytes E server) as [name|]; [|auto].
  destruct (existsb (Byte.eqb Byte.x00) name); auto.
Qed.

(** The transport: one exchange is logged, whatever happens; what comes back
    is decoded, and the only failures are those of the connection and the
    encoding of the request line. *)
Lemma whois_request_cases (E : env) (request server : str) (port : N)
    (log : list exchange) :
  exists reply,
    snd (WhoisParser.whois_request E request server port log)
    = log ++ [Exchange server port request reply]
    /\ match reply with
       | Some buff =>
           fst (WhoisParser.whois_request E request server port log)
           = Ok (match Codec.decode_utf8 buff with
                 | Some text => text
                 | None => map Byte.to_N buff
                 end)
       | None =>
           fst (WhoisParser.whois_request E request server port log)
           = Raise SocketError
           \/ fst (WhoisParser.whois_request E request server port log)
              = Raise UnicodeEncodeError
           \/ fst (WhoisParser.whois_request E request server port log)
              = Raise (connect_failure E server port)
       end.
Proof.
  unfold WhoisParser.whois_request, bind. rewrite server_request_net.
  unfold lift.
  destruct (net E (length log) server port) as [peer|].
  - destruct (Codec.utf8_encodable request).
    + destruct (peer request) as [buff|].
      * exists (Some buff). split; [reflexivity|]. cbn [fst].
        unfold WhoisParser._server_process_result. simpl.
        destruct (Codec.decode_utf8 buff); reflexivity.
      * exists None. split; [reflexivity | left; reflexivity].
    + exists None. split; [reflexivity | right; left; reflexivity].
  - exists None. split; [reflexivity | right; right; reflexivity].
Qed.

Lemma whois_request_raises (E : env) (request server : str) (port : N)
    (log : list exchange) (e : exn) :
  fst (WhoisParser.whois_request E request server port log) = Raise e ->
  e = SocketError \/ e = UnicodeEncodeError
  \/ e = TypeError \/ e = OverflowError.
Proof.
  destruct (whois_request_cases E request server port log) as [[buff|] [_ H]].
  - rewrite H. discriminate.
  - destruct H as [H|[H|H]]; rewrite H; intros H'; injection H' as <-; auto.
    destruct (connect_failure_cases E server port) as [-> | [-> | ->]]; auto.
Qed.

(** C7.  [get_root_server] raises [WhoisException] ("No root WHOIS server
    found for domain.") exactly when no key of the Static Override Table
    ends the domain and the extraction over the response of
    [whois.iana.org], run with no list of visited servers, finds no server;
    when a key ends the domain it returns the table's server, and when the
    extraction finds a server it returns that server. *)
Theorem C7_no_root_server_exactly_when_no_referral :
  forall (E : env) (self : WhoisParser.t) (log : list exchange),
    (forall msg,
        fst (WhoisParser.get_root_server E self log)
        = Raise (WhoisException msg)
        <-> msg = no_root_message
            /\ WhoisParser.get_default_server (WhoisParser.domain self) = None
            /\ exists domain data log',
                WhoisParser.wire_domain E self = Ok domain
                /\ WhoisParser.whois_request E domain WhoisParser.IANA_SERVER
                     WhoisParser.default_port log = (Ok data, log')
                /\ WhoisParser.extract_whois_server data None = None)
    /\ (forall server,
           WhoisParser.get_default_server (WhoisParser.domain self)
           = Some server ->
           WhoisParser.get_root_server E self log = (Ok server, log))
    /\ (forall domain data log' server,
           WhoisParser.get_default_server (WhoisParser.domain self) = None ->
           WhoisParser.wire_domain E self = Ok domain ->
           WhoisParser.whois_request E domain WhoisParser.IANA_SERVER
             WhoisParser.default_port log = (Ok data, log') ->
           WhoisParser.extract_whois_server data None = Some server ->
           WhoisParser.get_root_server E self log = (Ok server, log'))
    /\ (forall data,
           WhoisParser.extract_whois_server data None
           = WhoisParser.first_new
               (Re.findall WhoisParser.whois_regexp data) []).
Proof.
  intros E self log. split; [|split; [|split]].
  - intros msg. unfold WhoisParser.get_root_server.
    destruct (WhoisParser.get_default_server (WhoisParser.domain self))
      as [s|] eqn:Hd.
    { split; [discriminate | intros [_ [H _]]; discriminate]. }
    unfold bind, lift.
    destruct (WhoisParser.wire_domain E self) as [d|e| |] eqn:Hw.
    + destruct (WhoisParser.whois_request E d WhoisParser.IANA_SERVER
                  WhoisParser.default_port log) as [[data|e| |] log'] eqn:Hq.
      * destruct (WhoisParser.extract_whois_server data None) as [s|] eqn:Hx.
        -- split; [discriminate|].
           intros [_ [_ [d' [data' [log'' [H1 [H2 H3]]]]]]].
           injection H1 as <-. pose proof (eq_trans (eq_sym Hq) H2) as X.
           injection X as <- <-.
           rewrite Hx in H3. discriminate.
        -- cbn. split.
           ++ intros H. inversion H. split; [reflexivity|]. split; [reflexivity|].
              exists d, data, log'. auto.
           ++ intros [-> _]. reflexivity.
      * cbn. split.
        -- intros H. inversion H; subst e.
           assert (H' : fst (WhoisParser.whois_request E d WhoisParser.IANA_SERVER
                               WhoisParser.default_port log)
                        = Raise (WhoisException msg)) by (rewrite Hq; reflexivity).
           apply whois_request_raises in H'.
           destruct H' as [H'|[H'|[H'|H']]]; discriminate H'.
        -- intros [_ [_ [d' [data' [log'' [H1 [H2 _]]]]]]].
           injection H1 as <-. pose proof (eq_trans (eq_sym Hq) H2) as X.
           discriminate X.
      * cbn. split; [discriminate|].
        intros [_ [_ [d' [data' [log'' [H1 [H2 _]]]]]]].
        injection H1 as <-. pose proof (eq_trans (eq_sym Hq) H2) as X.
           discriminate X.
      * cbn. split; [discriminate|].
        intros [_ [_ [d' [data' [log'' [H1 [H2 _]]]]]]].
        injection H1 as <-. pose proof (eq_trans (eq_sym Hq) H2) as X.
           discriminate X.
    + cbn. split.
      * intros H. inversion H; subst e.
        apply wire_domain_raises in Hw. discriminate.
      * intros [_ [_ [d' [data' [log'' [H1 _]]]]]]. discriminate.
    + cbn. split; [discriminate|].
      intros [_ [_ [d' [data' [log'' [H1 _]]]]]]. discriminate.
    + cbn. split; [discriminate|].
      intros [_ [_ [d' [data' [log'' [H1 _]]]]]]. discriminate.
  - intros server H. unfold WhoisParser.get_root_server. rewrite H. reflexivity.
  - intros d data log' server Hd Hw Hq Hx. unfold WhoisParser.get_root_server.
    rewrite Hd. unfold bind, lift. rewrite Hw, Hq, Hx. reflexivity.
  - intros data. reflexivity.
Qed.

(* ================================================================== *)
(** * The pattern of referrals

    The backtracking matcher on [whois_regexp] finds what the direct scan of
    the specification finds. *)

Lemma span_app (p : char -> bool) (s : str) :
  fst (span p s) ++ snd (span p s) = s.
Proof.
  induction s as [|t s IH]; simpl; [reflexivity|].
  destruct (p t); simpl; [rewrite IH|]; reflexivity.
Qed.

Lemma span_fst_all (p : char -> bool) (s : str) :
  forallb p (fst (span p s)) = true.
Proof.
  induction s as [|t s IH]; simpl; [reflexivity|].
  destruct (p t) eqn:E; simpl; [rewrite E, IH|]; reflexivity.
Qed.

Lemma span_firstn (p : char -> bool) (s : str) :
  firstn (length s - length (snd (span p s))) s = fst (span p s).
Proof.
  rewrite <- (span_app p s) at 1 3. rewrite length_app.
  replace (length (fst (span p s)) + length (snd (span p s))
           - length (snd (span p s))) with (length (fst (span p s)) + 0) by lia.
  rewrite firstn_app_2. simpl. apply app_nil_r.
Qed.

Lemma run_word (l s : str) (g : option str)
    (k : str -> option str -> option Re.hit) :
  Re.run (Re.word l) s g k
  = match after_label l s with
    | Some r => k r g
    | None => None
    end.
Proof.
  revert s; induction l as [|c l IH]; intros s; simpl; [reflexivity|].
  destruct s as [|t s]; [reflexivity|].
  destruct (Re.lit_ignorecase c t); [apply IH | reflexivity].
Qed.

(** A greedy repetition whose continuation accepts everywhere stops at the
    end of the run. *)
Lemma star_total (p : char -> bool) (s : str) (F : str -> Re.hit) :
  Re.star p s (fun r => Some (F r)) = Some (F (snd (span p s))).
Proof.
  induction s as [|t s IH]; simpl; [reflexivity|].
  destruct (p t); simpl; [rewrite IH|]; reflexivity.
Qed.

(** A greedy repetition whose continuation refuses a text that begins with a
    character of the class can only stop at the end of the run. *)
Lemma star_skip (p : char -> bool) (s : str) (K : str -> option Re.hit) :
  (forall t r, p t = true -> K (t :: r) = None) ->
  Re.star p s K = K (snd (span p s)).
Proof.
  intros HK. induction s as [|t s IH]; simpl; [reflexivity|].
  destruct (p t) eqn:E; simpl; [|reflexivity].
  rewrite IH. destruct (K (snd (span p s))); [reflexivity|].
  apply HK; exact E.
Qed.

Lemma dot_then_more_cons (c a : char) (l : str) :
  dot_then_more (c :: a :: l) = ((c =? 46)%N || dot_then_more (a :: l)).
Proof. reflexivity. Qed.

(** A greedy repetition followed by "a dot, then a character of the class,
    then the rest of the run": whichever dot the matcher settles on, the
    match ends at the end of the run. *)
Lemma star_dot (p : char -> bool) (s : str) (K : str -> option Re.hit)
    (F : str -> Re.hit) :
  p 46%N = true ->
  (forall s3,
      K s3 = match s3 with
             | c :: t :: r =>
                 if (c =? 46)%N && p t then Some (F (snd (span p r)))
                 else None
             | _ => None
             end) ->
  Re.star p s K
  = if dot_then_more (fst (span p s)) then Some (F (snd (span p s)))
    else None.
Proof.
  intros Hdot HK. induction s as [|t s IH].
  - simpl. rewrite HK. reflexivity.
  - cbn [Re.star span]. destruct (p t) eqn:E.
    + rewrite IH. cbn [fst snd].
      destruct (dot_then_more (fst (span p s))) eqn:D.
      * destruct (fst (span p s)) as [|a l] eqn:Ef; [discriminate D|].
        rewrite dot_then_more_cons, D, orb_true_r. reflexivity.
      * rewrite HK. destruct s as [|t1 s1]; [reflexivity|].
        cbn [span] in D |- *. destruct (p t1) eqn:E1.
        -- cbn [fst snd] in D |- *.
           rewrite dot_then_more_cons, D, orb_false_r, andb_true_r.
           reflexivity.
        -- cbn [fst snd]. rewrite andb_false_r. reflexivity.
    + cbn [fst snd dot_then_more]. rewrite HK.
      destruct s as [|t1 s1]; [reflexivity|].
      destruct (t =? 46)%N eqn:Et; [|reflexivity].
      apply N.eqb_eq in Et. subst t. congruence.
Qed.

Lemma whois_regexp_parts :
  WhoisParser.whois_regexp = Re.Cat labels_pattern colon_pattern.
Proof. reflexivity. Qed.

Lemma span_notspace_cons (t : char) (s : str) :
  span notspace (t :: s)
  = if notspace t
    then (t :: fst (span notspace s), snd (span notspace s))
    else ([], t :: s).
Proof. reflexivity. Qed.

(** The group: the whole run of non-whitespace, when some dot of it is
    neither first nor last. *)
Lemma run_token (s : str) (g : option str) :
  Re.run token_pattern s g accept
  = if interior_dot (fst (span notspace s))
    then Some (as_hit (span notspace s))
    else None.
Proof.
  destruct s as [|t s]; [reflexivity|].
  rewrite span_notspace_cons.
  unfold token_pattern. cbn [Re.run].
  change (Re.in_class Re.NotSpace) with notspace.
  destruct (notspace t) eqn:E; [|reflexivity].
  cbn [fst snd interior_dot].
  rewrite (star_dot notspace s _
             (fun s4 => (Some (firstn (length (t :: s) - length s4) (t :: s)),
                         s4))).
  - destruct (dot_then_more (fst (span notspace s))); [|reflexivity].
    unfold as_hit. cbn [fst snd]. do 2 f_equal.
    f_equal.
    pose proof (span_firstn notspace (t :: s)) as H.
    rewrite span_notspace_cons, E in H. exact H.
  - reflexivity.
  - intros s3. destruct s3 as [|c [|t1 r]]; cbn [Re.run].
    + reflexivity.
    + change (Re.lit_ignorecase 46%N c) with (c =? 46)%N.
      destruct (c =? 46)%N; reflexivity.
    + change (Re.lit_ignorecase 46%N c) with (c =? 46)%N.
      change (Re.in_class Re.NotSpace) with notspace.
      destruct (c =? 46)%N; [|reflexivity].
      destruct (notspace t1); [|reflexivity]. cbn [andb].
      unfold accept.
      apply (star_total notspace r
               (fun s4 => (Some (firstn (length (t :: s) - length s4) (t :: s)),
                           s4))).
Qed.

Lemma run_token_space (t : char) (r : str) (g : option str) :
  isspace t = true -> Re.run token_pattern (t :: r) g accept = None.
Proof.
  intros H. rewrite run_token, span_notspace_cons. unfold notspace.
  rewrite H. reflexivity.
Qed.

(** After a label: the colon, all the whitespace there is, the token. *)
Lemma run_colon (s : str) (g : option str) :
  Re.run colon_pattern s g accept = option_map as_hit (token_after s).
Proof.
  unfold colon_pattern, token_after. cbn [Re.run].
  destruct s as [|c s]; [reflexivity|].
  change (Re.lit_ignorecase 58%N c) with (c =? 58)%N.
  destruct (c =? 58)%N; [|reflexivity].
  change (Re.in_class Re.Space) with isspace.
  rewrite star_skip.
  - fold token_pattern.
    change (Re.run
              (Re.Group
                 (Re.Cat (Re.Plus Re.NotSpace)
                    (Re.Cat (Re.Chr 46%N) (Re.Plus Re.NotSpace))))
              (snd (span isspace s)) g (fun (s1 : str) (g1 : option str) => accept s1 g1))
      with (Re.run token_pattern (snd (span isspace s)) g accept).
    rewrite run_token.
    destruct (interior_dot (fst (span notspace (snd (span isspace s)))));
      reflexivity.
  - intros t r H. apply (run_token_space t r g H).
Qed.

Lemma run_label (l s : str) (g : option str) :
  Re.run (Re.word l) s g (fun s1 g1 => Re.run colon_pattern s1 g1 accept)
  = option_map as_hit (label_then_token l s).
Proof.
  rewrite run_word. unfold label_then_token.
  destruct (after_label l s) as [r|]; [apply run_colon | reflexivity].
Qed.

(** A match of [whois_regexp] at the head of a text is a referral at the
    head of the text, and gives its token. *)
Lemma match_here_referral (s : str) :
  Re.match_here WhoisParser.whois_regexp s = option_map as_hit (referral_at s).
Proof.
  unfold Re.match_here. rewrite whois_regexp_parts.
  change (fun rest g => Some (g, rest)) with accept.
  unfold labels_pattern. cbn [Re.run].
  rewrite !run_label.
  unfold referral_at, referral_labels. cbn [first_label].
  destruct (label_then_token (lit "refer") s); [reflexivity|].
  destruct (label_then_token (lit "whois server") s); [reflexivity|].
  destruct (label_then_token (lit "referral url") s); [reflexivity|].
  destruct (label_then_token (lit "registrar whois") s); reflexivity.
Qed.

Lemma findall_from_referrals (s : str) (skip : nat) :
  Re.findall_from WhoisParser.whois_regexp skip s = referrals_from skip s.
Proof.
  revert skip; induction s as [|t s IH]; intros skip.
  - destruct skip; reflexivity.
  - cbn [Re.findall_from referrals_from]. destruct skip as [|n]; [|apply IH].
    rewrite match_here_referral.
    destruct (referral_at (t :: s)) as [[token rest]|]; cbn [option_map as_hit].
    + cbn [fst snd Re.group_text]. rewrite IH. reflexivity.
    + apply IH.
Qed.

(** What [findall] returns is the list of the referral tokens of the
    text. *)
Lemma findall_referral_tokens (s : str) :
  Re.findall WhoisParser.whois_regexp s = referral_tokens s.
Proof. apply findall_from_referrals. Qed.

(** ** The tokens *)

Lemma first_label_token (labels : list str) (s token rest : str) :
  first_label labels s = Some (token, rest) ->
  interior_dot token = true /\ forallb notspace token = true.
Proof.
  induction labels as [|l labels IH]; [discriminate|].
  cbn [first_label]. unfold label_then_token at 1.
  destruct (after_label l s) as [s1|]; [|exact IH].
  unfold token_after. destruct s1 as [|c s1]; [exact IH|].
  destruct (c =? 58)%N; [|exact IH].
  destruct (interior_dot (fst (span notspace (snd (span isspace s1))))) eqn:D;
    [|exact IH].
  intros H. injection H as <- _. split; [exact D | apply span_fst_all].
Qed.

Lemma referrals_from_token (s : str) (skip : nat) (token : str) :
  In token (referrals_from skip s) ->
  interior_dot token = true /\ forallb notspace token = true.
Proof.
  revert skip; induction s as [|t s IH]; intros skip; [intros []|].
  cbn [referrals_from]. destruct skip as [|n]; [|apply IH].
  destruct (referral_at (t :: s)) as [[tok rest]|] eqn:E; [|apply IH].
  intros [<- | H]; [|exact (IH _ H)].
  exact (first_label_token _ _ _ _ E).
Qed.

(** A token has a dot inside and no whitespace: [strip] leaves it as it
    is, and it is not the empty string. *)
Lemma lstrip_notspace (s : str) : forallb notspace s = true -> lstrip s = s.
Proof.
  destruct s as [|c s]; [reflexivity|]. simpl. unfold notspace at 1.
  destruct (isspace c); [discriminate | reflexivity].
Qed.

Lemma strip_notspace (s : str) : forallb notspace s = true -> strip s = s.
Proof.
  intros H. unfold strip. rewrite (lstrip_notspace _ H).
  rewrite lstrip_notspace, rev_involutive; [reflexivity|].
  rewrite forallb_forall in *. intros x Hx. apply H, in_rev, Hx.
Qed.

Lemma interior_dot_length (s : str) : interior_dot s = true -> 3 <= length s.
Proof.
  destruct s as [|a [|b [|c s]]]; simpl; try discriminate. lia.
Qed.

(** ** The loop over the tokens *)

Lemma qualifiesb_iff (visited : list str) (token : str) :
  qualifiesb visited token = true <-> qualifies visited token.
Proof.
  unfold qualifiesb, qualifies.
  rewrite andb_true_iff, !negb_true_iff, str_in_false.
  rewrite <- contains_iff.
  destruct (contains (lit "://") token); split; intros [H1 H2]; split;
    congruence.
Qed.

Lemma first_new_cons (item : str) (items visited : list str) :
  forallb notspace item = true ->
  WhoisParser.first_new (item :: items) visited
  = if qualifiesb visited item then Some item
    else WhoisParser.first_new items visited.
Proof.
  intros H. cbn [WhoisParser.first_new]. rewrite (strip_notspace _ H).
  reflexivity.
Qed.

Lemma first_new_found (items visited : list str) (server : str) :
  (forall t, In t items -> forallb notspace t = true) ->
  WhoisParser.first_new items visited = Some server <->
  exists before after,
    items = before ++ server :: after
    /\ qualifies visited server
    /\ Forall (fun t => ~ qualifies visited t) before.
Proof.
  induction items as [|item items IH]; intros Hall.
  - split; [discriminate | intros [[|b before] [after [H _]]]; discriminate].
  - rewrite first_new_cons by (apply Hall; left; reflexivity).
    destruct (qualifiesb visited item) eqn:Q.
    + apply qualifiesb_iff in Q. split.
      * intros H. injection H as <-. exists [], items. auto.
      * intros [[|b before] [after [H [Hq Hb]]]].
        -- injection H as -> _. reflexivity.
        -- injection H as -> _. inversion Hb; subst. contradiction.
    + assert (Q' : ~ qualifies visited item)
        by (rewrite <- qualifiesb_iff, Q; discriminate).
      rewrite IH by (intros t Ht; apply Hall; right; exact Ht). split.
      * intros [before [after [H [Hq Hb]]]].
        exists (item :: before), after. rewrite H. auto.
      * intros [[|b before] [after [H [Hq Hb]]]].
        -- injection H as -> _. contradiction.
        -- injection H as _ ->. inversion Hb; subst.
           exists before, after. auto.
Qed.

Lemma first_new_none (items visited : list str) :
  (forall t, In t items -> forallb notspace t = true) ->
  WhoisParser.first_new items visited = None <->
  Forall (fun t => ~ qualifies visited t) items.
Proof.
  induction items as [|item items IH]; intros Hall.
  - split; [constructor | reflexivity].
  - rewrite first_new_cons by (apply Hall; left; reflexivity).
    destruct (qualifiesb visited item) eqn:Q.
    + apply qualifiesb_iff in Q. split; [discriminate|].
      intros H. inversion H; subst. contradiction.
    + assert (Q' : ~ qualifies visited item)
        by (rewrite <- qualifiesb_iff, Q; discriminate).
      rewrite IH by (intros t Ht; apply Hall; right; exact Ht). split.
      * intros H. constructor; assumption.
      * intros H. inversion H; assumption.
Qed.

Lemma referral_tokens_notspace (response token : str) :
  In token (referral_tokens response) -> forallb notspace token = true.
Proof. intros H. exact (proj2 (referrals_from_token _ _ _ H)). Qed.

Lemma extract_first_new (response : str) (server_list : option (list str)) :
  WhoisParser.extract_whois_server response server_list
  = WhoisParser.first_new (referral_tokens response) (or_empty server_list).
Proof.
  unfold WhoisParser.extract_whois_server.
  rewrite findall_referral_tokens. reflexivity.
Qed.

(** C2.  [findall] on [whois_regexp] returns the tokens of the referrals of
    the text: what follows one of the four labels (case ignored), a colon
    and whitespace (any amount, none included), up to the next whitespace,
    with a dot inside.  [extract_whois_server] returns the first of these
    tokens that is not in the list of visited servers and has no ["://"],
    and [None] when no token qualifies; so of the two lines of the
    specification the first gives its server and the second, a URL, gives
    nothing. *)
Theorem C2_extract_first_qualifying_referral :
  forall (response : str) (server_list : option (list str)),
    let visited := or_empty server_list in
    Re.findall WhoisParser.whois_regexp response = referral_tokens response
    /\ (forall token,
           In token (referral_tokens response) ->
           interior_dot token = true /\ forallb notspace token = true)
    /\ (forall server,
           WhoisParser.extract_whois_server response server_list = Some server
           <-> exists before after,
               referral_tokens response = before ++ server :: after
               /\ qualifies visited server
               /\ Forall (fun t => ~ qualifies visited t) before)
    /\ (WhoisParser.extract_whois_server response server_list = None
        <-> Forall (fun t => ~ qualifies visited t) (referral_tokens response))
    /\ WhoisParser.extract_whois_server
         (lit "Whois Server: whois.example-registry.net") server_list
       = (if str_in (lit "whois.example-registry.net") visited then None
          else Some (lit "whois.example-registry.net"))
    /\ referral_tokens (lit "referral URL: https://rdap.example.net")
       = [lit "https://rdap.example.net"]
    /\ WhoisParser.extract_whois_server
         (lit "referral URL: https://rdap.example.net") server_list
       = None.
Proof.
  intros response server_list visited.
  split; [apply findall_referral_tokens|].
  split; [intros token H; exact (referrals_from_token _ _ _ H)|].
  split; [|split; [|split; [|split]]].
  - intros server. rewrite extract_first_new.
    apply first_new_found. apply referral_tokens_notspace.
  - rewrite extract_first_new.
    apply first_new_none. apply referral_tokens_notspace.
  - unfold WhoisParser.extract_whois_server. fold visited.
    replace (Re.findall WhoisParser.whois_regexp
               (lit "Whois Server: whois.example-registry.net"))
      with [lit "whois.example-registry.net"] by (vm_compute; reflexivity).
    cbn [WhoisParser.first_new].
    replace (strip (lit "whois.example-registry.net"))
      with (lit "whois.example-registry.net") by (vm_compute; reflexivity).
    replace (contains (lit "://") (lit "whois.example-registry.net"))
      with false by (vm_compute; reflexivity).
    destruct (str_in (lit "whois.example-registry.net") visited); reflexivity.
  - vm_compute. reflexivity.
  - unfold WhoisParser.extract_whois_server.
    replace (Re.findall WhoisParser.whois_regexp
               (lit "referral URL: https://rdap.example.net"))
      with [lit "https://rdap.example.net"] by (vm_compute; reflexivity).
    cbn [WhoisParser.first_new].
    replace (strip (lit "https://rdap.example.net"))
      with (lit "https://rdap.example.net") by (vm_compute; reflexivity).
    replace (contains (lit "://") (lit "https://rdap.example.net"))
      with true by (vm_compute; reflexivity).
    rewrite andb_false_r. reflexivity.
Qed.

(* ================================================================== *)
(** * Record selection for whois.verisign-grs.com *)

Lemma atoms_here_app (p q : list Re.atom) (a b : str) :
  length p = length a ->
  Re.atoms_here (p ++ q) (a ++ b) = Re.atoms_here p a && Re.atoms_here q b.
Proof.
  revert a; induction p as [|x p IH]; intros [|t a] H; try discriminate H.
  - destruct q; reflexivity.
  - simpl. rewrite IH by (simpl in H; lia). apply andb_assoc.
Qed.

Lemma atoms_here_literal (s rest : str) :
  Re.atoms_here (map Re.Exactly s) (s ++ rest) = true.
Proof.
  induction s as [|c s IH]; [reflexivity|].
  simpl. rewrite N.eqb_refl. exact IH.
Qed.

Lemma atoms_here_same (s : str) : Re.atoms_here (map Re.Exactly s) s = true.
Proof.
  induction s as [|c s IH]; [reflexivity|].
  simpl. rewrite N.eqb_refl. exact IH.
Qed.


Lemma search_app (p : list Re.atom) (a s : str) :
  Re.atoms_here p s = true -> Re.search p (a ++ s) = true.
Proof.
  intros H. induction a as [|c a IH]; simpl.
  - destruct s; simpl; rewrite H; reflexivity.
  - rewrite IH. apply orb_true_r.
Qed.

Lemma domain_pattern_some (domain : str) (p : list Re.atom) :
  WhoisParser.domain_pattern domain = Some p ->
  exists atoms,
    WhoisParser.domain_atoms domain = Some atoms
    /\ p = map Re.Exactly (lit "Domain Name: ") ++ atoms ++ [Re.Exactly LF].
Proof.
  unfold WhoisParser.domain_pattern.
  destruct (WhoisParser.domain_atoms domain) as [atoms|]; [|discriminate].
  intros H. exists atoms. split; [reflexivity|].
  injection H as H. symmetry. exact H.
Qed.




Lemma first_record_in (p : list Re.atom) (records : list str) (record : str) :
  WhoisParser.first_record p records = Some record -> In record records.
Proof.
  induction records as [|b records IH]; simpl; [discriminate|].
  destruct (Re.search p b).
  - intros H. injection H as <-. left; reflexivity.
  - intros H. right. exact (IH H).
Qed.

Lemma process_response_verisign (response domain : str) (p : list Re.atom)
    (previous server_list : list str) (never_cut : bool) :
  WhoisParser.domain_pattern domain = Some p ->
  WhoisParser._process_response response domain verisign
    previous server_list never_cut
  = Ok (selected p response,
        (if never_cut then response else selected p response) :: previous,
        server_list ++ [verisign]).
Proof.
  intros Hp. unfold WhoisParser._process_response, WhoisParser.select_record.
  change (str_eqb verisign (lit "whois.verisign-grs.com")) with true.
  cbn iota. rewrite Hp. unfold selected.
  destruct (WhoisParser.first_record p (split response [LF; LF]));
    destruct never_cut; reflexivity.
Qed.

Lemma process_response_other (response domain server : str)
    (previous server_list : list str) (never_cut : bool) :
  server <> verisign ->
  WhoisParser._process_response response domain server
    previous server_list never_cut
  = Ok (response, response :: previous, server_list ++ [server]).
Proof.
  intros Hs. unfold WhoisParser._process_response.
  apply str_eqb_neq in Hs. unfold verisign in Hs. rewrite Hs.
  destruct never_cut; reflexivity.
Qed.

(** ** The domains whose pattern is embedded *)

Lemma upper_ascii_special (c : char) :
  (upper_ascii c =? 46)%N = (c =? 46)%N
  /\ Re.is_special (upper_ascii c) = Re.is_special c.
Proof.
  unfold upper_ascii. destruct (is_lower_ascii c) eqn:L; [|split; reflexivity].
  unfold is_lower_ascii in L. apply andb_true_iff in L.
  destruct L as [L1 L2]. apply N.leb_le in L1, L2.
  unfold Re.is_special.
  set (specials := lit "\^$.|?*+()[]{}"). vm_compute in specials.
  subst specials. cbn [existsb].
  repeat match goal with
         | |- context [N.eqb ?a ?b] =>
             replace (N.eqb a b) with false
               by (symmetry; apply N.eqb_neq; lia)
         end.
  split; reflexivity.
Qed.

Lemma plain_domain_atoms (domain : str) :
  plain_domain domain = true ->
  exists atoms, WhoisParser.domain_atoms domain = Some atoms.
Proof.
  induction domain as [|c d IH]; [exists []; reflexivity|].
  unfold plain_domain. cbn [forallb].
  rewrite andb_true_iff. intros [Hc Hd]. destruct (IH Hd) as [atoms Ha].
  unfold plain_char in Hc. apply andb_true_iff in Hc. destruct Hc as [Hc Hs].
  cbn [WhoisParser.domain_atoms]. rewrite Hc, Ha. cbn [negb].
  destruct (upper_ascii_special c) as [-> ->].
  destruct (c =? 46)%N; [eexists; reflexivity|].
  cbn [orb] in Hs. apply negb_true_iff in Hs. rewrite Hs.
  eexists; reflexivity.
Qed.

Lemma plain_domain_pattern (domain : str) :
  plain_domain domain = true ->
  exists p, WhoisParser.domain_pattern domain = Some p.
Proof.
  intros H. destruct (plain_domain_atoms _ H) as [atoms Ha].
  unfold WhoisParser.domain_pattern. rewrite Ha. eexists; reflexivity.
Qed.




(* ================================================================== *)
(** * The referral chase *)

Lemma or_empty_snoc {A : Type} (l : list A) (x : A) :
  or_empty (Some (l ++ [x])) = l ++ [x].
Proof. destruct l; reflexivity. Qed.

Lemma or_empty_cons {A : Type} (x : A) (l : list A) :
  or_empty (Some (x :: l)) = x :: l.
Proof. reflexivity. Qed.

Lemma process_response_processed (response domain server : str)
    (previous server_list : list str) (never_cut : bool) :
  WhoisParser._process_response response domain server
    previous server_list never_cut
  = rbind (processed domain server response) (fun r =>
      Ok (r, (if never_cut then response else r) :: previous,
          server_list ++ [server])).
Proof.
  unfold WhoisParser._process_response, processed, verisign.
  destruct (str_eqb server (lit "whois.verisign-grs.com")).
  - destruct (WhoisParser.select_record response domain); cbn [rbind];
      try reflexivity. destruct never_cut; reflexivity.
  - cbn [rbind]. destruct never_cut; reflexivity.
Qed.

Lemma processed_block (domain server response r : str) :
  processed domain server response = Ok r ->
  In r (response :: split response [LF; LF]).
Proof.
  unfold processed, WhoisParser.select_record.
  destruct (str_eqb server verisign).
  - destruct (WhoisParser.domain_pattern domain) as [p|]; [|discriminate].
    destruct (WhoisParser.first_record p (split response [LF; LF])) as [b|] eqn:E.
    + intros H. injection H as <-. right. exact (first_record_in p _ b E).
    + intros H. injection H as <-. left. reflexivity.
  - intros H. injection H as <-. left. reflexivity.
Qed.

(** What is extracted is a referral token of the text, not in the list, and
    not the empty string. *)
Lemma extract_some (response : str) (server_list : option (list str))
    (server : str) :
  WhoisParser.extract_whois_server response server_list = Some server ->
  In server (referral_tokens response)
  /\ ~ In server (or_empty server_list)
  /\ server <> [].
Proof.
  rewrite extract_first_new.
  rewrite first_new_found by apply referral_tokens_notspace.
  intros [before [after [H [[Hv _] _]]]].
  assert (Hin : In server (referral_tokens response))
    by (rewrite H; apply in_or_app; right; left; reflexivity).
  split; [exact Hin|]. split; [exact Hv|].
  destruct (referrals_from_token _ _ _ Hin) as [Hd _].
  apply interior_dot_length in Hd. intros ->. simpl in Hd. lia.
Qed.

(** The scan finds nothing when every candidate is a visited server. *)
Lemma extract_all_visited (response : str) (visited : list str) :
  (forall token, In token (referral_tokens response) -> In token visited) ->
  WhoisParser.extract_whois_server response (Some visited) = None.
Proof.
  intros H. rewrite extract_first_new.
  apply first_new_none; [apply referral_tokens_notspace|].
  apply Forall_forall. intros t Ht [Hv _]. apply Hv.
  destruct visited as [|v vs]; [elim (H t Ht) | exact (H t Ht)].
Qed.

Lemma get_default_server_nonempty (domain server : str) :
  WhoisParser.get_default_server domain = Some server -> server <> [].
Proof.
  unfold WhoisParser.get_default_server, WhoisParser.root_servers.
  cbn [WhoisParser.first_suffix].
  repeat match goal with
         | |- context [if ?b then _ else _] => destruct b
         end; intros H; try discriminate H; injection H as <-; discriminate.
Qed.

(** What [server or self.get_root_server()] does to the log: nothing, or
    one exchange with the root server. *)
Lemma server_or_root_ok (E : env) (self : WhoisParser.t)
    (server : option str) (log log0 : list exchange) (s : str) :
  WhoisParser.server_or_root E self server log = (Ok s, log0) ->
  s <> [] /\ exists root, log0 = log ++ root /\ root_lookup root.
Proof.
  assert (Hroot : WhoisParser.get_root_server E self log = (Ok s, log0) ->
                  s <> [] /\ exists root, log0 = log ++ root /\ root_lookup root).
  { unfold WhoisParser.get_root_server.
    destruct (WhoisParser.get_default_server (WhoisParser.domain self))
      as [d|] eqn:Hd.
    - intros H. injection H as <- <-. split.
      + exact (get_default_server_nonempty _ _ Hd).
      + exists []. split; [symmetry; apply app_nil_r | left; reflexivity].
    - unfold bind, lift.
      destruct (WhoisParser.wire_domain E self) as [dom|e| |]; try discriminate.
      destruct (whois_request_cases E dom WhoisParser.IANA_SERVER
                  WhoisParser.default_port log) as [reply [Hl _]].
      destruct (WhoisParser.whois_request E dom WhoisParser.IANA_SERVER
                  WhoisParser.default_port log) as [[data|e| |] log1];
        try discriminate.
      cbn [snd] in Hl.
      destruct (WhoisParser.extract_whois_server data None) as [s'|] eqn:Hx;
        [|discriminate].
      intros H. injection H as <- <-. split.
      + exact (proj2 (proj2 (extract_some _ _ _ Hx))).
      + exists [Exchange WhoisParser.IANA_SERVER WhoisParser.default_port
                  dom reply].
        split; [exact Hl | right; exists dom, reply; reflexivity]. }
  destruct server as [[|c s']|]; cbn [WhoisParser.server_or_root];
    try exact Hroot.
  intros H. injection H as <- <-. split; [discriminate|].
  exists []. split; [symmetry; apply app_nil_r | left; reflexivity].
Qed.

Lemma server_process_result_decoded (buff : bytes) (server : str) :
  WhoisParser._server_process_result buff server = Ok (decoded buff).
Proof.
  unfold WhoisParser._server_process_result, decoded. simpl.
  destruct (Codec.decode_utf8 buff); reflexivity.
Qed.

Lemma server_or_root_given (E : env) (self : WhoisParser.t) (s : str) :
  s <> [] -> WhoisParser.server_or_root E self (Some s) = ret s.
Proof. destruct s; [contradiction | reflexivity]. Qed.

(** One round of [get_whois_raw] for a given server. *)
Lemma get_whois_raw_unfold (fuel : nat) (E : env) (self : WhoisParser.t)
    (s : str) (previous : option (list str)) (never_cut with_server_list : bool)
    (server_list : option (list str)) (log : list exchange) :
  s <> [] ->
  WhoisParser.get_whois_raw (S fuel) E self (Some s) previous never_cut
    with_server_list server_list log
  = match WhoisParser.wire_domain E self with
    | Ok domain =>
        let request := WhoisParser.prepare_request domain s in
        let sent reply := log ++ [Exchange s WhoisParser.default_port request reply] in
        match net E (length log) s WhoisParser.default_port with
        | Some peer =>
            if Codec.utf8_encodable request then
              match peer request with
              | Some buff =>
                  match processed domain s (decoded buff) with
                  | Ok r =>
                      let previous' :=
                        (if never_cut then decoded buff else r)
                          :: or_empty previous in
                      let server_list' := or_empty server_list ++ [s] in
                      match WhoisParser.extract_whois_server r
                              (Some server_list') with
                      | Some new_server =>
                          WhoisParser.get_whois_raw fuel E self
                            (Some new_server) (Some previous') never_cut
                            with_server_list (Some server_list')
                            (sent (Some buff))
                      | None =>
                          (Ok (if with_server_list
                               then WhoisParser.ResponsesAndServers
                                      previous' server_list'
                               else WhoisParser.Responses previous'),
                           sent (Some buff))
                      end
                  | Raise e => (Raise e, sent (Some buff))
                  | OutOfFuel => (OutOfFuel, sent (Some buff))
                  | NotEmbedded => (NotEmbedded, sent (Some buff))
                  end
              | None => (Raise SocketError, sent None)
              end
            else (Raise UnicodeEncodeError, sent None)
        | None =>
            (Raise (connect_failure E s WhoisParser.default_port), sent None)
        end
    | Raise e => (Raise e, log)
    | OutOfFuel => (OutOfFuel, log)
    | NotEmbedded => (NotEmbedded, log)
    end.
Proof.
  intros Hs. cbn [WhoisParser.get_whois_raw].
  rewrite (server_or_root_given E self s Hs).
  unfold bind at 1. unfold ret at 1. unfold bind at 1. unfold lift at 1.
  destruct (WhoisParser.wire_domain E self) as [domain|e| |]; try reflexivity.
  cbv zeta. unfold bind at 1. unfold WhoisParser.whois_request at 1.
  unfold bind at 1. rewrite server_request_net.
  destruct (net E (length log) s WhoisParser.default_port) as [peer|];
    [|reflexivity].
  destruct (Codec.utf8_encodable (WhoisParser.prepare_request domain s));
    [|reflexivity].
  destruct (peer (WhoisParser.prepare_request domain s)) as [buff|];
    [|reflexivity].
  unfold lift at 1. rewrite server_process_result_decoded.
  unfold bind at 1. unfold lift at 1. rewrite process_response_processed.
  destruct (processed domain s (decoded buff)) as [r|e| |];
    cbn [rbind]; try reflexivity.
  cbv beta iota zeta.
  destruct (WhoisParser.extract_whois_server r
              (Some (or_empty server_list ++ [s]))); reflexivity.
Qed.

Lemma wire_domain_fuel (E : env) (self : WhoisParser.t) :
  WhoisParser.wire_domain E self <> OutOfFuel.
Proof.
  unfold WhoisParser.wire_domain, WhoisParser.domain_rfc3490,
    WhoisParser.convert_to_rfc3490, idna_encode.
  destruct (WhoisParser.rfc3490 self); [|discriminate].
  destruct (WhoisParser.domain self) as [|c d]; [discriminate|].
  destruct (Codec.encode_ascii (c :: d)) as [b|].
  - destruct (forallb label_ok _ && _); cbn [rbind]; [|discriminate].
    destruct (Codec.decode_ascii b); discriminate.
  - destruct (idna_nonascii E (c :: d)) as [b|]; cbn [rbind]; [|discriminate].
    destruct (Codec.decode_ascii b); discriminate.
Qed.

Lemma processed_fuel (domain server response : str) :
  processed domain server response <> OutOfFuel.
Proof.
  unfold processed, WhoisParser.select_record.
  destruct (str_eqb server verisign); [|discriminate].
  destruct (WhoisParser.domain_pattern domain) as [p|]; [|discriminate].
  destruct (WhoisParser.first_record p _); discriminate.
Qed.

(** A call of [get_whois_raw] with a server, when it returns: the log grew
    by the exchanges of a chase that starts with that server, the chain
    grew by one entry per exchange, the latest first, and the list of
    servers by the servers of the exchanges, in order. *)
Lemma get_whois_raw_chase (fuel : nat) (E : env) (self : WhoisParser.t) :
  forall (s : str) (previous : option (list str))
         (never_cut with_server_list : bool) (server_list : option (list str))
         (log : list exchange) (res : WhoisParser.raw) (log' : list exchange),
    s <> [] ->
    WhoisParser.get_whois_raw fuel E self (Some s) previous never_cut
      with_server_list server_list log = (Ok res, log') ->
    exists domain ex exs,
      WhoisParser.wire_domain E self = Ok domain
      /\ log' = log ++ ex :: exs
      /\ ex_server ex = s
      /\ chase E domain (length log) (or_empty server_list) (ex :: exs)
      /\ res = (if with_server_list
                then WhoisParser.ResponsesAndServers
                       (rev (map (chain_entry domain never_cut) (ex :: exs))
                          ++ or_empty previous)
                       (or_empty server_list ++ map ex_server (ex :: exs))
                else WhoisParser.Responses
                       (rev (map (chain_entry domain never_cut) (ex :: exs))
                          ++ or_empty previous)).
Proof.
  induction fuel as [|fuel IH];
    intros s previous never_cut with_server_list server_list log res log' Hs.
  - discriminate.
  - rewrite (get_whois_raw_unfold _ _ _ _ _ _ _ _ _ Hs).
    destruct (WhoisParser.wire_domain E self) as [domain|e| |] eqn:Hw;
      try discriminate.
    cbv zeta.
    destruct (net E (length log) s WhoisParser.default_port) as [peer|] eqn:Hn;
      [|discriminate].
    destruct (Codec.utf8_encodable (WhoisParser.prepare_request domain s));
      [|discriminate].
    destruct (peer (WhoisParser.prepare_request domain s)) as [buff|] eqn:Hp;
      [|discriminate].
    destruct (processed domain s (decoded buff)) as [r|e| |] eqn:Hr;
      try discriminate.
    set (ex := Exchange s WhoisParser.default_port
                 (WhoisParser.prepare_request domain s) (Some buff)).
    assert (Hq : chase_query E domain (length log) ex).
    { split; [reflexivity|]. split; [reflexivity|]. split.
      - exists peer, buff. auto.
      - exists r. exact Hr. }
    assert (Hsc : scanned domain ex = r).
    { unfold scanned, ex. cbn [ex_server reply_text ex_reply].
      rewrite Hr. reflexivity. }
    assert (He : chain_entry domain never_cut ex
                 = if never_cut then decoded buff else r).
    { unfold chain_entry. rewrite Hsc. reflexivity. }
    destruct (WhoisParser.extract_whois_server r
                (Some (or_empty server_list ++ [s]))) as [new|] eqn:Hx.
    + intros H.
      destruct (extract_some _ _ _ Hx) as [_ [_ Hnew]].
      destruct (IH _ _ _ _ _ _ _ _ Hnew H)
        as [domain' [ex' [exs [Hw' [Hl [Hs' [Hc Hres]]]]]]].
      injection Hw' as <-.
      exists domain, ex, (ex' :: exs).
      split; [reflexivity|]. split; [rewrite Hl, <- app_assoc; reflexivity|].
      split; [reflexivity|]. split.
      * apply chase_follow; [exact Hq | rewrite Hsc, Hs'; exact Hx |].
        rewrite or_empty_snoc, length_app, Nat.add_comm in Hc. exact Hc.
      * rewrite Hres, or_empty_snoc, or_empty_cons.
        change (map (chain_entry domain never_cut) (ex :: ex' :: exs))
          with (chain_entry domain never_cut ex
                  :: map (chain_entry domain never_cut) (ex' :: exs)).
        change (map ex_server (ex :: ex' :: exs))
          with (s :: map ex_server (ex' :: exs)).
        cbn [rev]. rewrite He, <- !app_assoc. reflexivity.
    + intros H. injection H as <- <-.
      exists domain, ex, [].
      split; [reflexivity|]. split; [reflexivity|]. split; [reflexivity|].
      split.
      * apply chase_end; [exact Hq | rewrite Hsc; exact Hx].
      * cbn [map rev app]. rewrite He. reflexivity.
Qed.

(** ** No server twice *)

Lemma NoDup_snoc {A : Type} (l : list A) (x : A) :
  NoDup l -> ~ In x l -> NoDup (l ++ [x]).
Proof.
  intros Hl Hx. induction Hl as [|y l Hy Hl IH]; simpl.
  - constructor; [intros [] | constructor].
  - constructor.
    + intros H. apply in_app_or in H. destruct H as [H | [H | []]].
      * contradiction.
      * subst. apply Hx. left; reflexivity.
    + apply IH. intros H. apply Hx. right; exact H.
Qed.

Lemma chase_query_first (E : env) (domain : str) (n : nat)
    (visited : list str) (exs : list exchange) :
  chase E domain n visited exs ->
  exists ex rest, exs = ex :: rest /\ chase_query E domain n ex.
Proof. intros H. destruct H; eauto. Qed.

(** The servers of a chase are all different, and none is in the list the
    chase started with, the first one apart. *)
Lemma chase_nodup (E : env) (domain : str) (n : nat) (visited : list str)
    (exs : list exchange) :
  chase E domain n visited exs ->
  NoDup visited ->
  (forall ex rest, exs = ex :: rest -> ~ In (ex_server ex) visited) ->
  NoDup (visited ++ map ex_server exs).
Proof.
  intros H. induction H as [n visited ex Hq Hx | n visited ex ex' exs Hq Hx Hc IH];
    intros Hv Hfirst.
  - apply NoDup_snoc; [exact Hv | exact (Hfirst ex [] eq_refl)].
  - replace (visited ++ map ex_server (ex :: ex' :: exs))
      with ((visited ++ [ex_server ex]) ++ map ex_server (ex' :: exs))
      by (rewrite <- app_assoc; reflexivity).
    apply IH.
    + apply NoDup_snoc; [exact Hv | exact (Hfirst ex _ eq_refl)].
    + intros e rest He. injection He as <- _.
      destruct (extract_some _ _ _ Hx) as [_ [Hn _]].
      rewrite or_empty_snoc in Hn. exact Hn.
Qed.

(** The servers of a chase, the first one apart, are candidates of the
    responses. *)
Lemma chase_within (E : env) (U : list str) (domain : str) (n : nat)
    (visited : list str) (exs : list exchange) :
  referrals_within E U ->
  chase E domain n visited exs ->
  Forall (fun ex => In (ex_server ex) U) (tl exs).
Proof.
  intros HU H.
  induction H as [n visited ex Hq Hx | n visited ex ex' exs Hq Hx Hc IH].
  - constructor.
  - cbn [tl] in *. constructor; [|exact IH].
    destruct (extract_some _ _ _ Hx) as [Hin _].
    destruct Hq as [_ [_ [[peer [buff [Hn [Hp Hb]]]] [r Hr]]]].
    unfold scanned in Hin. rewrite Hr in Hin.
    assert (Ht : reply_text ex = decoded buff)
      by (unfold reply_text; rewrite Hb; reflexivity).
    rewrite Ht in Hr.
    exact (HU _ _ _ _ _ _ r Hn Hp (processed_block _ _ _ _ Hr) _ Hin).
Qed.

Lemma chase_length (E : env) (U : list str) (domain : str) (n : nat)
    (exs : list exchange) :
  referrals_within E U ->
  chase E domain n [] exs ->
  NoDup (map ex_server exs) /\ length exs <= S (length U).
Proof.
  intros HU Hc.
  assert (Hn : NoDup (map ex_server exs)).
  { apply (chase_nodup E domain n [] exs Hc); [constructor|].
    intros ex rest _ []. }
  split; [exact Hn|].
  pose proof (chase_within E U domain n [] exs HU Hc) as Hw.
  destruct exs as [|ex rest]; [simpl; lia|].
  cbn [tl] in Hw. cbn [map] in Hn. inversion Hn as [|x l Hx Hrest]; subst.
  assert (Hi : incl (map ex_server rest) U).
  { intros s Hs. apply in_map_iff in Hs. destruct Hs as [e [<- He]].
    rewrite Forall_forall in Hw. exact (Hw e He). }
  pose proof (NoDup_incl_length Hrest Hi) as Hl.
  rewrite length_map in Hl. simpl. lia.
Qed.

(** ** Termination *)

Lemma filter_length_le {A : Type} (f : A -> bool) (l : list A) :
  length (filter f l) <= length l.
Proof.
  induction l as [|x l IH]; simpl; [lia|]. destruct (f x); simpl; lia.
Qed.

Lemma filter_length_lt {A : Type} (f g : A -> bool) (l : list A) (a : A) :
  (forall x, f x = true -> g x = true) ->
  In a l -> g a = true -> f a = false ->
  length (filter f l) < length (filter g l).
Proof.
  intros Hfg. induction l as [|x l IH]; intros Ha Hg Hf; [destruct Ha|].
  assert (Hle : length (filter f l) <= length (filter g l)).
  { clear IH Ha. induction l as [|y l IHl]; simpl; [lia|].
    destruct (f y) eqn:Fy.
    - rewrite (Hfg y Fy). simpl. lia.
    - destruct (g y); simpl; lia. }
  simpl. destruct Ha as [-> | Ha].
  - rewrite Hf, Hg. simpl. lia.
  - specialize (IH Ha Hg Hf). destruct (f x) eqn:Fx.
    + rewrite (Hfg x Fx). simpl. lia.
    + destruct (g x); simpl; lia.
Qed.

Lemma str_in_app (x : str) (l1 l2 : list str) :
  str_in x (l1 ++ l2) = str_in x l1 || str_in x l2.
Proof.
  induction l1 as [|y l1 IH]; simpl; [reflexivity|].
  rewrite IH. apply orb_assoc.
Qed.

(** Visiting a server of [U] that was not visited leaves fewer of them. *)
Lemma unvisited_shrinks (U visited : list str) (s : str) :
  In s U -> ~ In s visited ->
  length (unvisited U (visited ++ [s])) < length (unvisited U visited).
Proof.
  intros HU Hv. unfold unvisited. apply (filter_length_lt _ _ U s).
  - intros x. rewrite str_in_app, negb_orb, andb_true_iff. tauto.
  - exact HU.
  - apply negb_true_iff, str_in_false. exact Hv.
  - rewrite str_in_app. cbn [str_in]. rewrite str_eqb_refl, orb_true_r.
    reflexivity.
Qed.

(** With more fuel than there are servers of [U] left to visit, the
    recursion does not reach its bound. *)
Lemma get_whois_raw_fuel (E : env) (self : WhoisParser.t) (U : list str) :
  referrals_within E U ->
  forall (fuel : nat) (s : str) (previous : option (list str))
         (never_cut with_server_list : bool) (server_list : option (list str))
         (log : list exchange),
    s <> [] ->
    length (unvisited U (or_empty server_list ++ [s])) < fuel ->
    fst (WhoisParser.get_whois_raw fuel E self (Some s) previous never_cut
           with_server_list server_list log) <> OutOfFuel.
Proof.
  intros HU. induction fuel as [|fuel IH];
    intros s previous never_cut with_server_list server_list log Hs Hm;
    [lia|].
  rewrite (get_whois_raw_unfold _ _ _ _ _ _ _ _ _ Hs).
  pose proof (wire_domain_fuel E self) as Hwf.
  destruct (WhoisParser.wire_domain E self) as [domain|e| |];
    try discriminate; [|contradiction].
  cbv zeta.
  destruct (net E (length log) s WhoisParser.default_port) as [peer|] eqn:Hn;
    [|discriminate].
  destruct (Codec.utf8_encodable (WhoisParser.prepare_request domain s));
    [|discriminate].
  destruct (peer (WhoisParser.prepare_request domain s)) as [buff|] eqn:Hp;
    [|discriminate].
  pose proof (processed_fuel domain s (decoded buff)) as Hpf.
  destruct (processed domain s (decoded buff)) as [r|e| |] eqn:Hr;
    try discriminate; [|contradiction].
  destruct (WhoisParser.extract_whois_server r
              (Some (or_empty server_list ++ [s]))) as [new|] eqn:Hx;
    [|discriminate].
  destruct (extract_some _ _ _ Hx) as [Hin [Hnv Hnew]].
  apply IH; [exact Hnew|].
  rewrite or_empty_snoc in Hnv |- *.
  assert (HinU : In new U)
    by exact (HU _ _ _ _ _ _ r Hn Hp (processed_block _ _ _ _ Hr) _ Hin).
  pose proof (unvisited_shrinks U _ new HinU Hnv). lia.
Qed.

(** ** The first server *)

(** [get_whois_raw] first settles the server it starts with, then chases. *)
Lemma get_whois_raw_start (fuel : nat) (E : env) (self : WhoisParser.t)
    (server : option str) (previous : option (list str))
    (never_cut with_server_list : bool) (server_list : option (list str))
    (log : list exchange) :
  WhoisParser.get_whois_raw (S fuel) E self server previous never_cut
    with_server_list server_list log
  = match WhoisParser.server_or_root E self server log with
    | (Ok s, log0) =>
        WhoisParser.get_whois_raw (S fuel) E self (Some s) previous never_cut
          with_server_list server_list log0
    | (Raise e, log0) => (Raise e, log0)
    | (OutOfFuel, log0) => (OutOfFuel, log0)
    | (NotEmbedded, log0) => (NotEmbedded, log0)
    end.
Proof.
  cbn [WhoisParser.get_whois_raw]. unfold bind at 1.
  destruct (WhoisParser.server_or_root E self server log)
    as [[s|e| |] log0] eqn:H; try reflexivity.
  destruct (server_or_root_ok _ _ _ _ _ _ H) as [Hs _].
  rewrite (server_or_root_given E self s Hs). reflexivity.
Qed.

Lemma get_root_server_fuel (E : env) (self : WhoisParser.t)
    (log : list exchange) :
  fst (WhoisParser.get_root_server E self log) <> OutOfFuel.
Proof.
  unfold WhoisParser.get_root_server.
  destruct (WhoisParser.get_default_server (WhoisParser.domain self));
    [discriminate|].
  unfold bind, lift. pose proof (wire_domain_fuel E self) as Hwf.
  destruct (WhoisParser.wire_domain E self) as [d|e| |];
    try discriminate; [|contradiction].
  destruct (whois_request_cases E d WhoisParser.IANA_SERVER
              WhoisParser.default_port log) as [[buff|] [_ H]].
  - destruct (WhoisParser.whois_request E d WhoisParser.IANA_SERVER
                WhoisParser.default_port log) as [[data|e| |] log1];
      cbn [fst] in H; try discriminate H.
    destruct (WhoisParser.extract_whois_server data None); discriminate.
  - destruct (WhoisParser.whois_request E d WhoisParser.IANA_SERVER
                WhoisParser.default_port log) as [[data|e| |] log1];
      cbn [fst] in H; destruct H as [H|[H|H]]; try discriminate H;
      discriminate.
Qed.

Lemma server_or_root_fuel (E : env) (self : WhoisParser.t)
    (server : option str) (log : list exchange) :
  fst (WhoisParser.server_or_root E self server log) <> OutOfFuel.
Proof.
  destruct server as [[|c s]|]; cbn [WhoisParser.server_or_root];
    try apply get_root_server_fuel. discriminate.
Qed.

(* ================================================================== *)
(** * A whole resolution *)

(** A call of [get_whois_raw], with or without a server, when it returns:
    at most one exchange with the root server, then a chase. *)
Lemma resolution_shape (fuel : nat) (E : env) (self : WhoisParser.t)
    (server : option str) (previous : option (list str))
    (never_cut with_server_list : bool) (server_list : option (list str))
    (log : list exchange) (res : WhoisParser.raw) (log' : list exchange) :
  WhoisParser.get_whois_raw fuel E self server previous never_cut
    with_server_list server_list log = (Ok res, log') ->
  exists domain root ex exs,
    WhoisParser.wire_domain E self = Ok domain
    /\ log' = log ++ root ++ ex :: exs
    /\ root_lookup root
    /\ (forall s, server = Some s -> s <> [] -> root = [] /\ ex_server ex = s)
    /\ chase E domain (length (log ++ root)) (or_empty server_list) (ex :: exs)
    /\ res = (if with_server_list
              then WhoisParser.ResponsesAndServers
                     (rev (map (chain_entry domain never_cut) (ex :: exs))
                        ++ or_empty previous)
                     (or_empty server_list ++ map ex_server (ex :: exs))
              else WhoisParser.Responses
                     (rev (map (chain_entry domain never_cut) (ex :: exs))
                        ++ or_empty previous)).
Proof.
  destruct fuel as [|fuel]; [discriminate|].
  rewrite get_whois_raw_start.
  destruct (WhoisParser.server_or_root E self server log)
    as [[s0|e| |] log0] eqn:H0; try discriminate.
  intros H.
  destruct (server_or_root_ok _ _ _ _ _ _ H0) as [Hs0 [root [Hl0 Hroot]]].
  destruct (get_whois_raw_chase _ _ _ _ _ _ _ _ _ _ _ Hs0 H)
    as [domain [ex [exs [Hw [Hl [Hs [Hc Hres]]]]]]].
  assert (Hgiven : forall s, server = Some s -> s <> [] ->
                             root = [] /\ ex_server ex = s).
  { intros s -> Hs'. rewrite (server_or_root_given E self s Hs') in H0.
    injection H0 as <- Hlog. split; [|exact Hs].
    rewrite Hl0 in Hlog. rewrite <- (app_nil_r log) in Hlog at 1.
    apply app_inv_head in Hlog. symmetry. exact Hlog. }
  exists domain, root, ex, exs.
  split; [exact Hw|]. split; [rewrite Hl, Hl0, <- app_assoc; reflexivity|].
  split; [exact Hroot|]. split; [exact Hgiven|].
  split; [rewrite <- Hl0; exact Hc | exact Hres].
Qed.

(** C6, as amended.  [never_cut] does not control the order of the chain:
    in both modes each response is inserted at the front, so the chain that
    [get_whois_raw] returns has one entry for each exchange of the chase,
    the latest first.  [never_cut] only chooses the entry of an exchange:
    the response as it was received when it is true, the processed response
    when it is false. *)
Theorem C6_chain_latest_first_in_both_modes :
  forall (fuel : nat) (E : env) (domain : str) (server : option (option str))
         (rfc3490 never_cut : option bool) (log : list exchange)
         (r : WhoisParser.raw) (log' : list exchange),
    get_whois_raw fuel E domain server rfc3490 never_cut log = (Ok r, log') ->
    exists d root exs,
      log' = log ++ root ++ exs
      /\ root_lookup root
      /\ chase E d (length (log ++ root)) [] exs
      /\ r = WhoisParser.Responses
               (rev (map (chain_entry d
                            (match never_cut with Some b => b | None => false end))
                         exs))
      /\ (forall ex, chain_entry d true ex = reply_text ex)
      /\ (forall ex, chain_entry d false ex = scanned d ex).
Proof.
  intros fuel E domain server rfc3490 never_cut log r log' H.
  unfold get_whois_raw in H.
  destruct (resolution_shape _ _ _ _ _ _ _ _ _ _ _ H)
    as [d [root [ex [exs [_ [Hl [Hroot [_ [Hc Hres]]]]]]]]].
  exists d, root, (ex :: exs).
  split; [exact Hl|]. split; [exact Hroot|]. split; [exact Hc|].
  split; [rewrite Hres, app_nil_r; reflexivity|].
  split; reflexivity.
Qed.

(* ================================================================== *)
(** * Further properties of the module *)

(** ** The accumulation of [_process_response] *)

Lemma processed_ok (domain server response : str) :
  server <> verisign \/ plain_domain domain = true ->
  exists r, processed domain server response = Ok r.
Proof.
  intros H. unfold processed, WhoisParser.select_record.
  destruct (str_eqb server verisign) eqn:Hs; [|eexists; reflexivity].
  apply str_eqb_eq in Hs. destruct H as [H | H]; [contradiction|].
  destruct (plain_domain_pattern _ H) as [p ->].
  destruct (WhoisParser.first_record p _); eexists; reflexivity.
Qed.

(** X2.  For a server other than [whois.verisign-grs.com], and for that
    server when the domain is made of ASCII characters none of which is a
    special character of patterns other than the dot, [_process_response]
    returns and raises nothing: it adds exactly one entry at the front of
    the chain and exactly the server at the end of the list of servers, and
    leaves the rest of both as they were.  The entry is the response itself
    when [never_cut] is true and the returned response otherwise; the
    returned response is the response or one of its blocks, and it is the
    response whenever the server is not [whois.verisign-grs.com].  (For
    another domain at that server the pattern of the search may not compile;
    the property says nothing of it.) *)
Theorem process_response_adds_one_entry :
  forall (response domain server : str) (previous server_list : list str)
         (never_cut : bool),
    server <> verisign \/ plain_domain domain = true ->
    exists r,
      WhoisParser._process_response response domain server
        previous server_list never_cut
      = Ok (r, (if never_cut then response else r) :: previous,
            server_list ++ [server])
      /\ cut_of response r
      /\ (server <> verisign -> r = response).
Proof.
  intros response domain server previous server_list never_cut H.
  rewrite process_response_processed.
  destruct (processed_ok domain server response H) as [r Hr].
  exists r. rewrite Hr. cbn [rbind]. split; [reflexivity|].
  split; [exact (processed_block _ _ _ _ Hr)|].
  intros Hs. unfold processed in Hr. apply str_eqb_neq in Hs.
  rewrite Hs in Hr. injection Hr as <-. reflexivity.
Qed.

Lemma process_response_two_records_witness :
  (verisign <> verisign \/ plain_domain (lit "example.com") = true)
  /\ exists r,
      WhoisParser._process_response two_records (lit "example.com") verisign
        [lit "earlier"] [lit "whois.iana.org"] false
      = Ok (r, (if false then two_records else r) :: [lit "earlier"],
            [lit "whois.iana.org"] ++ [verisign])
      /\ cut_of two_records r
      /\ (verisign <> verisign -> r = two_records).
Proof.
  split; [right; reflexivity|].
  exact (process_response_adds_one_entry two_records (lit "example.com")
           verisign [lit "earlier"] [lit "whois.iana.org"] false
           (or_intror eq_refl)).
Defined.

(** ** The chase, as the caller of [get_whois_raw] sees it *)

Lemma chase_requests (E : env) (domain : str) (n : nat) (visited : list str)
    (exs : list exchange) :
  chase E domain n visited exs ->
  Forall (fun ex =>
            ex_port ex = WhoisParser.default_port
            /\ ex_request ex = WhoisParser.prepare_request domain (ex_server ex)
            /\ ex_reply ex <> None) exs.
Proof.
  assert (Hone : forall m ex, chase_query E domain m ex ->
                   ex_port ex = WhoisParser.default_port
                   /\ ex_request ex
                      = WhoisParser.prepare_request domain (ex_server ex)
                   /\ ex_reply ex <> None).
  { intros m ex [Hp [Hr [[peer [buff [_ [_ Hb]]]] _]]].
    split; [exact Hp|]. split; [exact Hr|]. rewrite Hb. discriminate. }
  intros H.
  induction H as [n visited ex Hq Hx | n visited ex ex' exs Hq Hx Hc IH].
  - constructor; [exact (Hone _ _ Hq) | constructor].
  - constructor; [exact (Hone _ _ Hq) | exact IH].
Qed.

(** X3.  With [with_server_list] set and no lists passed in, a call of
    [get_whois_raw] that returns gives the chain together with the list of
    servers, and the two describe the same exchanges: after at most one
    exchange with the root server, the log holds one exchange per chain
    entry; the list of servers is the servers of these exchanges in the
    order they were queried, and no server occurs twice in it; the chain has
    their entries in the reverse order; each exchange went to port 43 with
    the request that [prepare_request] makes for its server. *)
Theorem server_list_matches_the_exchanges :
  forall (fuel : nat) (E : env) (self : WhoisParser.t) (server : option str)
         (never_cut : bool) (log : list exchange) (res : WhoisParser.raw)
         (log' : list exchange),
    WhoisParser.get_whois_raw fuel E self server None never_cut true None log
    = (Ok res, log') ->
    exists d root exs,
      WhoisParser.wire_domain E self = Ok d
      /\ log' = log ++ root ++ exs
      /\ root_lookup root
      /\ res = WhoisParser.ResponsesAndServers
                 (rev (map (chain_entry d never_cut) exs))
                 (map ex_server exs)
      /\ NoDup (map ex_server exs)
      /\ Forall (fun ex =>
                   ex_port ex = WhoisParser.default_port
                   /\ ex_request ex
                      = WhoisParser.prepare_request d (ex_server ex)
                   /\ ex_reply ex <> None) exs.
Proof.
  intros fuel E self server never_cut log res log' H.
  destruct (resolution_shape _ _ _ _ _ _ _ _ _ _ _ H)
    as [d [root [ex [exs [Hw [Hl [Hroot [_ [Hc Hres]]]]]]]]].
  exists d, root, (ex :: exs).
  split; [exact Hw|]. split; [exact Hl|]. split; [exact Hroot|].
  split; [rewrite Hres, app_nil_r; reflexivity|]. split.
  - apply (chase_nodup E d _ [] _ Hc); [constructor|]. intros e rest _ [].
  - exact (chase_requests _ _ _ _ _ Hc).
Qed.

Lemma server_list_two_hops_witness :
  exists d root exs,
    WhoisParser.ResponsesAndServers
      [lit "Domain not found."; lit "refer: whois.b.example"]
      [lit "whois.a.example"; lit "whois.b.example"]
    = WhoisParser.ResponsesAndServers
        (rev (map (chain_entry d false) exs)) (map ex_server exs)
    /\ root_lookup root
    /\ NoDup (map ex_server exs).
Proof.
  destruct (server_list_matches_the_exchanges 3 two_hops
              (WhoisParser.Build (lit "example.org") true)
              (Some (lit "whois.a.example")) false []
              (WhoisParser.ResponsesAndServers
                 [lit "Domain not found."; lit "refer: whois.b.example"]
                 [lit "whois.a.example"; lit "whois.b.example"])
              (snd (WhoisParser.get_whois_raw 3 two_hops
                      (WhoisParser.Build (lit "example.org") true)
                      (Some (lit "whois.a.example")) None false true None [])))
    as [d [root [exs [_ [_ [Hroot [Hres [Hn _]]]]]]]].
  - vm_compute. reflexivity.
  - exists d, root, exs. split; [exact Hres|]. split; [exact Hroot | exact Hn].
Defined.

(** ** Termination of the chase *)

Lemma refers_back_within :
  referrals_within refers_back [lit "whois.pir.org"; lit "whois.iana.org"].
Proof.
  intros n server port peer request buff block Hn Hp Hin.
  unfold net in Hn.
  destruct (connect_error refers_back server port); [discriminate Hn|].
  cbn [refers_back wire] in Hn. injection Hn as <-.
  destruct (str_eqb server WhoisParser.IANA_SERVER);
    vm_compute in Hp; injection Hp as <-;
    vm_compute in Hin; destruct Hin as [<- | [<- | []]];
    intros x Hx; vm_compute in Hx; destruct Hx as [<- | []];
    simpl; auto.
Qed.

(** X4.  When every referral that the peers can give names a server of a
    finite list [U], a call of [get_whois_raw] with no lists passed in comes
    back: a recursion depth of more than [length U] is never exhausted.  A
    returned chain has at most [length U + 1] entries, and the call made at
    most [length U + 2] exchanges, the one with the root server
    included. *)
Theorem get_whois_raw_returns_within_bound :
  forall (E : env) (U : list str) (fuel : nat) (self : WhoisParser.t)
         (server : option str) (never_cut with_server_list : bool)
         (log : list exchange),
    referrals_within E U ->
    length U < fuel ->
    fst (WhoisParser.get_whois_raw fuel E self server None never_cut
           with_server_list None log) <> OutOfFuel
    /\ (forall res log',
           WhoisParser.get_whois_raw fuel E self server None never_cut
             with_server_list None log = (Ok res, log') ->
           length (chain_of res) <= S (length U)
           /\ length log' <= length log + S (S (length U))).
Proof.
  intros E U fuel self server never_cut with_server_list log HU Hf. split.
  - destruct fuel as [|fuel]; [lia|].
    rewrite get_whois_raw_start.
    pose proof (server_or_root_fuel E self server log) as Hsf.
    destruct (WhoisParser.server_or_root E self server log)
      as [[s|e| |] log0] eqn:H0; cbn [fst] in *; try discriminate;
      [|contradiction].
    destruct (server_or_root_ok _ _ _ _ _ _ H0) as [Hs _].
    apply (get_whois_raw_fuel E self U HU); [exact Hs|].
    pose proof (filter_length_le
                  (fun u => negb (str_in u (or_empty None ++ [s]))) U) as Hle.
    unfold unvisited. lia.
  - intros res log' H.
    destruct (resolution_shape _ _ _ _ _ _ _ _ _ _ _ H)
      as [d [root [ex [exs [_ [Hl [Hroot [_ [Hc Hres]]]]]]]]].
    destruct (chase_length E U d _ _ HU Hc) as [_ Hlen].
    assert (Hr : length root <= 1).
    { destruct Hroot as [-> | [request [reply ->]]]; simpl; lia. }
    split.
    + rewrite Hres. destruct with_server_list; cbn [chain_of];
        rewrite app_nil_r, length_rev, length_map; exact Hlen.
    + rewrite Hl, !length_app. lia.
Qed.

Lemma get_whois_raw_refers_back_witness :
  referrals_within refers_back [lit "whois.pir.org"; lit "whois.iana.org"]
  /\ fst (WhoisParser.get_whois_raw 3 refers_back
            (WhoisParser.Build (lit "example.org") true) None None false
            false None []) <> OutOfFuel.
Proof.
  split; [exact refers_back_within|].
  apply (get_whois_raw_returns_within_bound refers_back
           [lit "whois.pir.org"; lit "whois.iana.org"] 3
           (WhoisParser.Build (lit "example.org") true) None false false []).
  - exact refers_back_within.
  - simpl. lia.
Defined.

(** ** The first server of a resolution *)

Lemma get_root_server_log (E : env) (self : WhoisParser.t)
    (log : list exchange) :
  exists root,
    snd (WhoisParser.get_root_server E self log) = log ++ root
    /\ match WhoisParser.get_default_server (WhoisParser.domain self) with
       | Some _ => root = []
       | None =>
           match WhoisParser.wire_domain E self with
           | Ok d =>
               exists reply,
                 root = [Exchange WhoisParser.IANA_SERVER
                           WhoisParser.default_port d reply]
           | _ => root = []
           end
       end.
Proof.
  unfold WhoisParser.get_root_server.
  destruct (WhoisParser.get_default_server (WhoisParser.domain self)).
  { exists []. split; [symmetry; apply app_nil_r | reflexivity]. }
  unfold bind, lift.
  destruct (WhoisParser.wire_domain E self) as [d|e| |];
    try (exists []; split; [symmetry; apply app_nil_r | reflexivity]).
  destruct (whois_request_cases E d WhoisParser.IANA_SERVER
              WhoisParser.default_port log) as [reply [Hl _]].
  exists [Exchange WhoisParser.IANA_SERVER WhoisParser.default_port d reply].
  split; [|exists reply; reflexivity].
  destruct (WhoisParser.whois_request E d WhoisParser.IANA_SERVER
              WhoisParser.default_port log) as [[data|e| |] log1];
    cbn [snd] in Hl; subst log1; try reflexivity.
  destruct (WhoisParser.extract_whois_server data None); reflexivity.
Qed.

Lemma server_or_root_log (E : env) (self : WhoisParser.t)
    (server : option str) (log : list exchange) :
  exists root,
    snd (WhoisParser.server_or_root E self server log) = log ++ root
    /\ root_lookup root.
Proof.
  assert (H : exists root,
             snd (WhoisParser.get_root_server E self log) = log ++ root
             /\ root_lookup root).
  { destruct (get_root_server_log E self log) as [root [Hl Hr]].
    exists root. split; [exact Hl|].
    destruct (WhoisParser.get_default_server (WhoisParser.domain self));
      [left; exact Hr|].
    destruct (WhoisParser.wire_domain E self) as [d|e| |];
      try (left; exact Hr).
    destruct Hr as [reply ->]. right. exists d, reply. reflexivity. }
  destruct server as [[|c s]|]; cbn [WhoisParser.server_or_root];
    try exact H.
  exists []. split; [symmetry; apply app_nil_r | left; reflexivity].
Qed.

(** The exchanges of a call are added after those that were made before
    it. *)
Lemma get_whois_raw_log_grows (E : env) (self : WhoisParser.t) (fuel : nat) :
  forall (server : option str) (previous : option (list str))
         (never_cut with_server_list : bool) (server_list : option (list str))
         (log : list exchange),
  exists rest,
    snd (WhoisParser.get_whois_raw fuel E self server previous never_cut
           with_server_list server_list log) = log ++ rest.
Proof.
  induction fuel as [|fuel IH];
    intros server previous never_cut with_server_list server_list log.
  { exists []. symmetry. apply app_nil_r. }
  rewrite get_whois_raw_start.
  destruct (server_or_root_log E self server log) as [root [Hl _]].
  destruct (WhoisParser.server_or_root E self server log)
    as [[s|e| |] log0] eqn:H0; cbn [snd] in Hl; subst log0;
    try (exists root; reflexivity).
  destruct (server_or_root_ok _ _ _ _ _ _ H0) as [Hs _].
  rewrite (get_whois_raw_unfold _ _ _ _ _ _ _ _ _ Hs).
  destruct (WhoisParser.wire_domain E self) as [domain|e| |];
    try (exists root; reflexivity).
  cbv zeta.
  destruct (net E (length (log ++ root)) s WhoisParser.default_port)
    as [peer|]; [|eexists; rewrite <- app_assoc; reflexivity].
  destruct (Codec.utf8_encodable (WhoisParser.prepare_request domain s));
    [|eexists; rewrite <- app_assoc; reflexivity].
  destruct (peer (WhoisParser.prepare_request domain s)) as [buff|];
    [|eexists; rewrite <- app_assoc; reflexivity].
  destruct (processed domain s (decoded buff)) as [r|e| |];
    try (eexists; rewrite <- app_assoc; reflexivity).
  destruct (WhoisParser.extract_whois_server r
              (Some (or_empty server_list ++ [s]))) as [new|];
    [|eexists; rewrite <- app_assoc; reflexivity].
  match goal with
  | |- context [WhoisParser.get_whois_raw fuel E self ?a ?b ?c ?d ?e ?l] =>
      destruct (IH a b c d e l) as [rest Hrest]
  end.
  rewrite Hrest. eexists. rewrite <- !app_assoc. reflexivity.
Qed.

(** The first exchange of a call with a given server. *)
Lemma get_whois_raw_first_exchange :
  forall (fuel : nat) (E : env) (self : WhoisParser.t) (s : str)
         (previous : option (list str)) (never_cut with_server_list : bool)
         (server_list : option (list str)) (log : list exchange),
    s <> [] ->
    match WhoisParser.wire_domain E self with
    | Ok d =>
        exists reply rest,
          snd (WhoisParser.get_whois_raw (S fuel) E self (Some s) previous
                 never_cut with_server_list server_list log)
          = log ++ Exchange s WhoisParser.default_port
                     (WhoisParser.prepare_request d s) reply :: rest
    | _ =>
        snd (WhoisParser.get_whois_raw (S fuel) E self (Some s) previous
               never_cut with_server_list server_list log) = log
    end.
Proof.
  intros fuel E self s previous never_cut with_server_list server_list log Hs.
  rewrite (get_whois_raw_unfold _ _ _ _ _ _ _ _ _ Hs).
  destruct (WhoisParser.wire_domain E self) as [domain|e| |];
    try reflexivity.
  cbv zeta.
  destruct (net E (length log) s WhoisParser.default_port) as [peer|];
    [|exists None, []; reflexivity].
  destruct (Codec.utf8_encodable (WhoisParser.prepare_request domain s));
    [|exists None, []; reflexivity].
  destruct (peer (WhoisParser.prepare_request domain s)) as [buff|];
    [|exists None, []; reflexivity].
  destruct (processed domain s (decoded buff)) as [r|e| |];
    try (exists (Some buff), []; reflexivity).
  destruct (WhoisParser.extract_whois_server r
              (Some (or_empty server_list ++ [s]))) as [new|];
    [|exists (Some buff), []; reflexivity].
  match goal with
  | |- context [WhoisParser.get_whois_raw fuel E self ?a ?b ?c ?d ?e ?l] =>
      destruct (get_whois_raw_log_grows E self fuel a b c d e l)
        as [rest Hrest]
  end.
  exists (Some buff), rest. rewrite Hrest, <- app_assoc. reflexivity.
Qed.


(** X5.  A server given to [get_whois_raw] (a non-empty string) is the
    first one queried: no root lookup is made, and as soon as the domain
    could be put in its wire form the next exchange of the log is with the
    given server, on port 43, with the request of [prepare_request] for that
    server; this holds whatever the call then does (return, raise, recurse).
    When the wire form of the domain cannot be made, nothing is sent. *)
Theorem given_server_is_queried_first :
  forall (fuel : nat) (E : env) (self : WhoisParser.t) (s : str)
         (previous : option (list str)) (never_cut with_server_list : bool)
         (server_list : option (list str)) (log : list exchange),
    s <> [] ->
    match WhoisParser.wire_domain E self with
    | Ok d =>
        exists reply rest,
          snd (WhoisParser.get_whois_raw (S fuel) E self (Some s) previous
                 never_cut with_server_list server_list log)
          = log ++ Exchange s WhoisParser.default_port
                     (WhoisParser.prepare_request d s) reply :: rest
    | _ =>
        snd (WhoisParser.get_whois_raw (S fuel) E self (Some s) previous
               never_cut with_server_list server_list log) = log
    end.
Proof. exact get_whois_raw_first_exchange. Qed.

Lemma given_server_two_hops_witness :
  lit "whois.a.example" <> []
  /\ match WhoisParser.wire_domain two_hops
             (WhoisParser.Build (lit "example.org") true) with
     | Ok d =>
         exists reply rest,
           snd (WhoisParser.get_whois_raw 3 two_hops
                  (WhoisParser.Build (lit "example.org") true)
                  (Some (lit "whois.a.example")) None false false None [])
           = [] ++ Exchange (lit "whois.a.example") WhoisParser.default_port
                     (WhoisParser.prepare_request d (lit "whois.a.example"))
                     reply :: rest
     | _ =>
         snd (WhoisParser.get_whois_raw 3 two_hops
                (WhoisParser.Build (lit "example.org") true)
                (Some (lit "whois.a.example")) None false false None []) = []
     end.
Proof.
  split; [discriminate|].
  apply (given_server_is_queried_first 2 two_hops
           (WhoisParser.Build (lit "example.org") true)
           (lit "whois.a.example") None false false None []).
  discriminate.
Defined.

(** X6.  [with_server_list] changes what is returned and nothing else: the
    call without it makes the same exchanges, ends the same way (same
    exception, if any) and returns the chain that the call with it returns
    beside the list of servers.  With the flag the result is always the
    pair, without it always the chain alone. *)
Theorem with_server_list_only_adds_the_list :
  forall (fuel : nat) (E : env) (self : WhoisParser.t) (server : option str)
         (previous : option (list str)) (never_cut : bool)
         (server_list : option (list str)) (log : list exchange),
    WhoisParser.get_whois_raw fuel E self server previous never_cut false
      server_list log
    = (match fst (WhoisParser.get_whois_raw fuel E self server previous
                    never_cut true server_list log) with
       | Ok res => Ok (WhoisParser.Responses (chain_of res))
       | Raise e => Raise e
       | OutOfFuel => OutOfFuel
       | NotEmbedded => NotEmbedded
       end,
       snd (WhoisParser.get_whois_raw fuel E self server previous
              never_cut true server_list log))
    /\ (forall res,
           fst (WhoisParser.get_whois_raw fuel E self server previous
                  never_cut true server_list log) = Ok res ->
           exists chain servers,
             res = WhoisParser.ResponsesAndServers chain servers).
Proof.
  induction fuel as [|fuel IH];
    intros E self server previous never_cut server_list log.
  { split; [reflexivity | discriminate]. }
  rewrite !get_whois_raw_start.
  destruct (WhoisParser.server_or_root E self server log)
    as [[s|e| |] log0] eqn:H0;
    try (split; [reflexivity | discriminate]).
  destruct (server_or_root_ok _ _ _ _ _ _ H0) as [Hs _].
  rewrite !(get_whois_raw_unfold _ _ _ _ _ _ _ _ _ Hs).
  destruct (WhoisParser.wire_domain E self) as [domain|e| |];
    try (split; [reflexivity | discriminate]).
  cbv zeta.
  destruct (net E (length log0) s WhoisParser.default_port) as [peer|];
    [|split; [reflexivity | discriminate]].
  destruct (Codec.utf8_encodable (WhoisParser.prepare_request domain s));
    [|split; [reflexivity | discriminate]].
  destruct (peer (WhoisParser.prepare_request domain s)) as [buff|];
    [|split; [reflexivity | discriminate]].
  destruct (processed domain s (decoded buff)) as [r|e| |];
    try (split; [reflexivity | discriminate]).
  destruct (WhoisParser.extract_whois_server r
              (Some (or_empty server_list ++ [s]))) as [new|].
  - apply IH.
  - split; [reflexivity|]. cbn [fst]. intros res H. injection H as <-.
    eexists. eexists. reflexivity.
Qed.

(** X7.  Leaving the server out, or giving [None] or the empty string, is
    the same as calling [get_root_server] first and then giving its result
    as the server: the call continues from the log that the root lookup
    left.  When the root lookup raises, the call raises the same exception
    and sends nothing more. *)
Theorem falsy_server_is_root_lookup_then_given :
  forall (fuel : nat) (E : env) (domain : str) (server : option (option str))
         (rfc3490 never_cut : option bool) (log : list exchange),
    In server [None; Some None; Some (Some (lit ""))] ->
    get_whois_raw (S fuel) E domain server rfc3490 never_cut log
    = match WhoisParser.get_root_server E
              (WhoisParser.Build domain
                 (match rfc3490 with Some b => b | None => true end)) log with
      | (Ok s, log0) =>
          get_whois_raw (S fuel) E domain (Some (Some s)) rfc3490 never_cut
            log0
      | (Raise e, log0) => (Raise e, log0)
      | (OutOfFuel, log0) => (OutOfFuel, log0)
      | (NotEmbedded, log0) => (NotEmbedded, log0)
      end.
Proof.
  intros fuel E domain server rfc3490 never_cut log Hin.
  unfold get_whois_raw.
  assert (Hfalsy : match server with
                   | Some s => s
                   | None => Some (lit "")
                   end = None
                   \/ match server with
                      | Some s => s
                      | None => Some (lit "")
                      end = Some []).
  { destruct Hin as [<- | [<- | [<- | []]]]; auto. }
  rewrite get_whois_raw_start.
  assert (Hroot : WhoisParser.server_or_root E
                    (WhoisParser.Build domain
                       (match rfc3490 with Some b => b | None => true end))
                    (match server with
                     | Some s => s
                     | None => Some (lit "")
                     end)
                  = WhoisParser.get_root_server E
                      (WhoisParser.Build domain
                         (match rfc3490 with Some b => b | None => true end))).
  { destruct Hfalsy as [-> | ->]; reflexivity. }
  rewrite Hroot. reflexivity.
Qed.

Lemma falsy_server_refers_back_witness :
  In (@None (option str)) [None; Some None; Some (Some (lit ""))]
  /\ get_whois_raw 3 refers_back (lit "example.org") None None None []
     = get_whois_raw 3 refers_back (lit "example.org")
         (Some (Some (lit "whois.pir.org"))) None None
         [Exchange WhoisParser.IANA_SERVER WhoisParser.default_port
            (lit "example.org")
            (Codec.encode_ascii (lit "refer: whois.pir.org"))].
Proof.
  split; [left; reflexivity|].
  exact (falsy_server_is_root_lookup_then_given 2 refers_back
           (lit "example.org") None None None [] (or_introl eq_refl)).
Defined.

(** ** The root lookup *)

Lemma extract_some_no_scheme (response : str) (server_list : option (list str))
    (server : str) :
  WhoisParser.extract_whois_server response server_list = Some server ->
  contains (lit "://") server = false
  /\ interior_dot server = true
  /\ forallb notspace server = true.
Proof.
  intros H. destruct (extract_some _ _ _ H) as [Hin _].
  destruct (referrals_from_token _ _ _ Hin) as [Hd Hn].
  split; [|split; assumption].
  rewrite extract_first_new in H.
  rewrite first_new_found in H by apply referral_tokens_notspace.
  destruct H as [before [after [_ [[_ Hs] _]]]].
  destruct (contains (lit "://") server) eqn:C; [|reflexivity].
  exfalso. apply Hs. apply contains_iff. exact C.
Qed.

(** X8.  [get_root_server] asks the network at most once: it sends nothing
    when a key of the table ends the domain or when the domain cannot be put
    in its wire form, and otherwise makes exactly one exchange, with
    [whois.iana.org] on port 43, the request being the wire form of the
    domain as it is (no quirk of [prepare_request] is applied).  A server it
    returns, from the table or from the response, is a token without
    whitespace, with a dot inside, and without ["://"]. *)
Theorem get_root_server_asks_iana_at_most_once :
  forall (E : env) (self : WhoisParser.t) (log : list exchange),
    (exists root,
        snd (WhoisParser.get_root_server E self log) = log ++ root
        /\ match WhoisParser.get_default_server (WhoisParser.domain self) with
           | Some _ => root = []
           | None =>
               match WhoisParser.wire_domain E self with
               | Ok d =>
                   exists reply,
                     root = [Exchange WhoisParser.IANA_SERVER
                               WhoisParser.default_port d reply]
               | _ => root = []
               end
           end)
    /\ (forall server,
           fst (WhoisParser.get_root_server E self log) = Ok server ->
           contains (lit "://") server = false
           /\ interior_dot server = true
           /\ forallb notspace server = true).
Proof.
  intros E self log. split; [apply get_root_server_log|].
  intros server. unfold WhoisParser.get_root_server.
  destruct (WhoisParser.get_default_server (WhoisParser.domain self))
    as [s|] eqn:Hd.
  - intros H. injection H as <-.
    unfold WhoisParser.get_default_server, WhoisParser.root_servers in Hd.
    cbn [WhoisParser.first_suffix] in Hd.
    repeat match type of Hd with
           | context [if ?b then _ else _] => destruct b
           end; try discriminate Hd; injection Hd as <-;
      repeat split; reflexivity.
  - unfold bind, lift.
    destruct (WhoisParser.wire_domain E self) as [d|e| |]; try discriminate.
    destruct (WhoisParser.whois_request E d WhoisParser.IANA_SERVER
                WhoisParser.default_port log) as [[data|e| |] log1];
      try discriminate.
    destruct (WhoisParser.extract_whois_server data None) as [s|] eqn:Hx;
      [|discriminate].
    intros H. injection H as <-. exact (extract_some_no_scheme _ _ _ Hx).
Qed.

(** ** The request *)

Lemma endswith_app (a b : str) : endswith (a ++ b) b = true.
Proof. apply endswith_iff. exists a. reflexivity. Qed.

Lemma endswith_prefixed (p d k : str) :
  endswith d k = true -> endswith (p ++ d) k = true.
Proof.
  rewrite !endswith_iff. intros [t ->]. exists (p ++ t).
  apply app_assoc.
Qed.

Lemma prepare_request_inj (d1 d2 server : str) :
  WhoisParser.prepare_request d1 server
  = WhoisParser.prepare_request d2 server -> d1 = d2.
Proof.
  unfold WhoisParser.prepare_request.
  destruct (str_eqb server (lit "whois.jprs.jp")).
  { apply app_inv_tail. }
  destruct (str_eqb server (lit "whois.denic.de")
            || str_eqb server (lit "de.whois-servers.net")).
  - rewrite !andb_true_r.
    destruct (endswith d1 (lit ".de")) eqn:E1;
      destruct (endswith d2 (lit ".de")) eqn:E2.
    + apply app_inv_head.
    + destruct (str_eqb server (lit "whois.verisign-grs.com")).
      * intros H. apply (f_equal (hd 0%N)) in H. vm_compute in H.
        discriminate H.
      * intros H. rewrite <- H in E2.
        rewrite (endswith_prefixed _ _ _ E1) in E2. discriminate E2.
    + destruct (str_eqb server (lit "whois.verisign-grs.com")).
      * intros H. apply (f_equal (hd 0%N)) in H. vm_compute in H.
        discriminate H.
      * intros H. rewrite H in E1.
        rewrite (endswith_prefixed _ _ _ E2) in E1. discriminate E1.
    + destruct (str_eqb server (lit "whois.verisign-grs.com")).
      * apply app_inv_head.
      * exact (fun H => H).
  - rewrite !andb_false_r.
    destruct (str_eqb server (lit "whois.verisign-grs.com")).
    + apply app_inv_head.
    + exact (fun H => H).
Qed.

(** X9.  For one server, [prepare_request] never gives the same request for
    two different domains: the quirks only put a fixed text before or after
    the domain, and a domain that gets the [-T dn,ace] prefix cannot be taken
    for one that does not, as the prefixed request still ends in [.de]. *)
Theorem prepare_request_distinguishes_domains :
  forall (d1 d2 server : str),
    d1 <> d2 ->
    WhoisParser.prepare_request d1 server
    <> WhoisParser.prepare_request d2 server.
Proof.
  intros d1 d2 server Hd H. apply Hd.
  exact (prepare_request_inj _ _ _ H).
Qed.

Lemma prepare_request_denic_witness :
  lit "-T dn,ace a.de" <> lit "a.de"
  /\ WhoisParser.prepare_request (lit "-T dn,ace a.de") (lit "whois.denic.de")
     <> WhoisParser.prepare_request (lit "a.de") (lit "whois.denic.de").
Proof.
  split; [discriminate|].
  apply (prepare_request_distinguishes_domains
           (lit "-T dn,ace a.de") (lit "a.de") (lit "whois.denic.de")).
  discriminate.
Defined.

(** ** The table *)

Lemma first_suffix_some (table : list (str * str)) (domain server : str) :
  WhoisParser.first_suffix table domain = Some server ->
  exists key, In (key, server) table /\ endswith domain key = true.
Proof.
  induction table as [|[k s] table IH]; simpl; [discriminate|].
  destruct (endswith domain k) eqn:Ek.
  - intros H. injection H as <-. exists k. split; [left; reflexivity | exact Ek].
  - intros H. destruct (IH H) as [key [Hin He]].
    exists key. split; [right; exact Hin | exact He].
Qed.

Lemma first_suffix_none (table : list (str * str)) (domain : str) :
  WhoisParser.first_suffix table domain = None ->
  forall key server, In (key, server) table -> endswith domain key = false.
Proof.
  induction table as [|[k s] table IH]; simpl; [intros _ key server []|].
  destruct (endswith domain k) eqn:Ek; [discriminate|].
  intros H key server [Hin | Hin].
  - injection Hin as <- _. exact Ek.
  - exact (IH H key server Hin).
Qed.

Lemma root_servers_one_match (domain k1 s1 k2 s2 : str) :
  In (k1, s1) WhoisParser.root_servers ->
  In (k2, s2) WhoisParser.root_servers ->
  endswith domain k1 = true -> endswith domain k2 = true -> s1 = s2.
Proof.
  intros H1 H2 E1 E2. unfold WhoisParser.root_servers in H1, H2.
  destruct H1 as [H1|[H1|[H1|[H1|[H1|[]]]]]]; injection H1 as <- <-;
    destruct H2 as [H2|[H2|[H2|[H2|[H2|[]]]]]]; injection H2 as <- <-;
    try reflexivity; keys_clash.
Qed.

(** X10.  The server that [get_default_server] returns does not depend on
    the order in which the dictionary [root_servers] is iterated: a loop over
    the same entries in any order returns the same server, or none, for
    every domain.  (No key of the dictionary ends another, so at most one
    entry can end a domain.) *)
Theorem get_default_server_any_iteration_order :
  forall (table : list (str * str)) (domain : str),
    (forall entry, In entry table <-> In entry WhoisParser.root_servers) ->
    WhoisParser.first_suffix table domain
    = WhoisParser.get_default_server domain.
Proof.
  intros table domain Hsame. unfold WhoisParser.get_default_server.
  destruct (WhoisParser.first_suffix table domain) as [s|] eqn:Ht;
    destruct (WhoisParser.first_suffix WhoisParser.root_servers domain)
      as [s'|] eqn:Hr; try reflexivity.
  - destruct (first_suffix_some _ _ _ Ht) as [k [Hk Ek]].
    destruct (first_suffix_some _ _ _ Hr) as [k' [Hk' Ek']].
    apply Hsame in Hk.
    rewrite (root_servers_one_match domain k s k' s' Hk Hk' Ek Ek').
    reflexivity.
  - destruct (first_suffix_some _ _ _ Ht) as [k [Hk Ek]].
    apply Hsame in Hk.
    rewrite (first_suffix_none _ _ Hr k s Hk) in Ek. discriminate Ek.
  - destruct (first_suffix_some _ _ _ Hr) as [k [Hk Ek]].
    apply Hsame in Hk.
    rewrite (first_suffix_none _ _ Ht k s' Hk) in Ek. discriminate Ek.
Qed.

Lemma get_default_server_reversed_witness :
  (forall entry,
      In entry (rev WhoisParser.root_servers)
      <-> In entry WhoisParser.root_servers)
  /\ WhoisParser.first_suffix (rev WhoisParser.root_servers)
       (lit "www.example.com")
     = WhoisParser.get_default_server (lit "www.example.com").
Proof.
  assert (H : forall entry,
             In entry (rev WhoisParser.root_servers)
             <-> In entry WhoisParser.root_servers)
    by (intros entry; symmetry; apply in_rev).
  split; [exact H|].
  exact (get_default_server_any_iteration_order
           (rev WhoisParser.root_servers) (lit "www.example.com") H).
Defined.

(** ** What a resolution can raise *)

Lemma convert_ok_ascii (E : env) (domain s : str) :
  WhoisParser.convert_to_rfc3490 E domain = Ok s -> forallb is_ascii s = true.
Proof.
  unfold WhoisParser.convert_to_rfc3490.
  destruct (idna_encode E domain) as [b|e| |]; cbn [rbind]; try discriminate.
  unfold Codec.decode_ascii.
  destruct (forallb is_ascii (map Byte.to_N b)) eqn:Ha; [|discriminate].
  intros H. injection H as <-. exact Ha.
Qed.

Lemma ascii_utf8_encodable (s : str) :
  forallb is_ascii s = true -> Codec.utf8_encodable s = true.
Proof.
  unfold Codec.utf8_encodable. induction s as [|c s IH]; [reflexivity|].
  simpl. rewrite !andb_true_iff. intros [Hc Hs]. split; [|exact (IH Hs)].
  unfold is_ascii in Hc. apply N.ltb_lt in Hc.
  destruct (55296 <=? c)%N eqn:L; [|reflexivity].
  apply N.leb_le in L. lia.
Qed.

Lemma prepare_request_ascii (domain server : str) :
  forallb is_ascii domain = true ->
  forallb is_ascii (WhoisParser.prepare_request domain server) = true.
Proof.
  intros H. unfold WhoisParser.prepare_request.
  repeat match goal with
         | |- context [if ?b then _ else _] => destruct b
         end; rewrite ?forallb_app, ?H; reflexivity.
Qed.

Lemma wire_domain_ascii (E : env) (self : WhoisParser.t) (d : str) :
  WhoisParser.rfc3490 self = true ->
  WhoisParser.wire_domain E self = Ok d ->
  forallb is_ascii d = true.
Proof.
  unfold WhoisParser.wire_domain, WhoisParser.domain_rfc3490.
  intros ->. apply convert_ok_ascii.
Qed.

Lemma wire_domain_raises_rfc3490 (E : env) (self : WhoisParser.t) (e : exn) :
  WhoisParser.wire_domain E self = Raise e ->
  e = UnicodeError /\ WhoisParser.rfc3490 self = true.
Proof.
  intros H. split; [exact (wire_domain_raises _ _ _ H)|].
  unfold WhoisParser.wire_domain in H.
  destruct (WhoisParser.rfc3490 self); [reflexivity | discriminate H].
Qed.

Lemma processed_raises (domain server response : str) (e : exn) :
  processed domain server response <> Raise e.
Proof.
  unfold processed, WhoisParser.select_record.
  destruct (str_eqb server verisign); [|discriminate].
  destruct (WhoisParser.domain_pattern domain) as [p|]; [|discriminate].
  destruct (WhoisParser.first_record p _); discriminate.
Qed.

Lemma whois_request_encode_error (E : env) (request server : str) (port : N)
    (log : list exchange) :
  fst (WhoisParser.whois_request E request server port log)
  = Raise UnicodeEncodeError ->
  Codec.utf8_encodable request = false.
Proof.
  unfold WhoisParser.whois_request, bind. rewrite server_request_net.
  unfold lift.
  destruct (net E (length log) server port) as [peer|].
  - destruct (Codec.utf8_encodable request); [|reflexivity].
    destruct (peer request) as [buff|]; [|discriminate].
    rewrite server_process_result_decoded. discriminate.
  - cbn [fst]. intros H. injection H as H.
    destruct (connect_failure_cases E server port) as [Hc | [Hc | Hc]];
      rewrite Hc in H; discriminate H.
Qed.

Lemma connect_failure_type_error (E : env) (server : str) (port : N) :
  connect_failure E server port = TypeError ->
  connect_error E server port = Some TypeError.
Proof.
  unfold connect_failure.
  destruct (connect_error E server port) as [e|]; [|discriminate].
  intros ->. reflexivity.
Qed.

(** The name and the port of the root server are never refused. *)
Lemma iana_request_raises (E : env) (request : str) (log : list exchange)
    (e : exn) :
  fst (WhoisParser.whois_request E request WhoisParser.IANA_SERVER
         WhoisParser.default_port log) = Raise e ->
  e = SocketError \/ e = UnicodeEncodeError.
Proof.
  destruct (whois_request_cases E request WhoisParser.IANA_SERVER
              WhoisParser.default_port log) as [[buff|] [_ H]].
  - rewrite H. discriminate.
  - destruct H as [H|[H|H]]; rewrite H; intros H'; injection H' as <-; auto.
Qed.

Lemma wire_domain_embedded (E : env) (self : WhoisParser.t) :
  WhoisParser.wire_domain E self <> NotEmbedded.
Proof.
  unfold WhoisParser.wire_domain, WhoisParser.domain_rfc3490,
    WhoisParser.convert_to_rfc3490, idna_encode.
  destruct (WhoisParser.rfc3490 self); [|discriminate].
  destruct (WhoisParser.domain self) as [|c d]; [discriminate|].
  destruct (Codec.encode_ascii (c :: d)) as [b|].
  - destruct (forallb label_ok _ && _); cbn [rbind]; [|discriminate].
    destruct (Codec.decode_ascii b); discriminate.
  - destruct (idna_nonascii E (c :: d)) as [b|]; cbn [rbind]; [|discriminate].
    destruct (Codec.decode_ascii b); discriminate.
Qed.

Lemma get_root_server_embedded (E : env) (self : WhoisParser.t)
    (log : list exchange) :
  fst (WhoisParser.get_root_server E self log) <> NotEmbedded.
Proof.
  unfold WhoisParser.get_root_server.
  destruct (WhoisParser.get_default_server (WhoisParser.domain self));
    [discriminate|].
  unfold bind, lift. pose proof (wire_domain_embedded E self) as Hw.
  destruct (WhoisParser.wire_domain E self) as [d|e| |];
    try discriminate; [|contradiction].
  destruct (whois_request_cases E d WhoisParser.IANA_SERVER
              WhoisParser.default_port log) as [[buff|] [_ H]].
  - destruct (WhoisParser.whois_request E d WhoisParser.IANA_SERVER
                WhoisParser.default_port log) as [[data|e| |] log1];
      cbn [fst] in H; try discriminate H.
    destruct (WhoisParser.extract_whois_server data None); discriminate.
  - destruct (WhoisParser.whois_request E d WhoisParser.IANA_SERVER
                WhoisParser.default_port log) as [[data|e| |] log1];
      cbn [fst] in H; destruct H as [H|[H|H]]; try discriminate H;
      discriminate.
Qed.

Lemma get_root_server_raises (E : env) (self : WhoisParser.t)
    (log : list exchange) (e : exn) :
  fst (WhoisParser.get_root_server E self log) = Raise e ->
  match e with
  | SocketError => True
  | UnicodeEncodeError => WhoisParser.rfc3490 self = false
  | UnicodeError => WhoisParser.rfc3490 self = true
  | WhoisException msg => msg = no_root_message
  | TypeError | OverflowError | ValueError _ => False
  end.
Proof.
  unfold WhoisParser.get_root_server.
  destruct (WhoisParser.get_default_server (WhoisParser.domain self));
    [discriminate|].
  unfold bind, lift.
  destruct (WhoisParser.wire_domain E self) as [d|e0| |] eqn:Hw;
    try discriminate.
  - destruct (WhoisParser.whois_request E d WhoisParser.IANA_SERVER
                WhoisParser.default_port log) as [[data|e0| |] log1] eqn:Hq;
      try discriminate.
    + destruct (WhoisParser.extract_whois_server data None); [discriminate|].
      intros H. injection H as <-. reflexivity.
    + intros H. injection H as <-.
      assert (Hf : fst (WhoisParser.whois_request E d WhoisParser.IANA_SERVER
                          WhoisParser.default_port log) = Raise e0)
        by (rewrite Hq; reflexivity).
      destruct (iana_request_raises _ _ _ _ Hf) as [-> | ->];
        [exact I|].
      apply whois_request_encode_error in Hf.
      destruct (WhoisParser.rfc3490 self) eqn:R; [|reflexivity].
      rewrite (ascii_utf8_encodable _ (wire_domain_ascii _ _ _ R Hw)) in Hf.
      discriminate Hf.
  - intros H. injection H as <-.
    destruct (wire_domain_raises_rfc3490 _ _ _ Hw) as [-> R]. exact R.
Qed.

Lemma pattern_none_not_plain (domain : str) :
  WhoisParser.domain_pattern domain = None -> plain_domain domain = false.
Proof.
  intros H. destruct (plain_domain domain) eqn:P; [|reflexivity].
  destruct (plain_domain_pattern _ P) as [p Hp]. rewrite Hp in H.
  discriminate H.
Qed.

Lemma processed_not_embedded (domain server response : str) :
  processed domain server response = NotEmbedded ->
  server = verisign /\ plain_domain domain = false.
Proof.
  unfold processed, WhoisParser.select_record.
  destruct (str_eqb server verisign) eqn:Hs; [|discriminate].
  apply str_eqb_eq in Hs.
  destruct (WhoisParser.domain_pattern domain) as [p|] eqn:Hp.
  - destruct (WhoisParser.first_record p _); discriminate.
  - intros _. split; [exact Hs | exact (pattern_none_not_plain _ Hp)].
Qed.

(** X11.  The exceptions of a resolution.  The record search at
    [whois.verisign-grs.com] is embedded only for a domain of ASCII
    characters none of which is a special character of patterns other than
    the dot (for another domain the pattern may not compile); that search
    apart, a call of [get_whois_raw] raises only: the socket's error; the
    [TypeError] of [connect], and only for the server of the last exchange,
    whose name has a null character or is refused by the codec; the codec's
    [UnicodeError] for the domain, and only when [rfc3490] is set;
    [UnicodeEncodeError] for the request line, and only when [rfc3490] is
    not set (a converted domain is ASCII, and so is every request made from
    it); [WhoisException] with the message of the root lookup, and only when
    no server was given.  It never raises the [ValueError] of
    [_server_process_result] nor the [OverflowError] of [connect].  The call
    leaves the embedding only after an exchange with
    [whois.verisign-grs.com] for a domain that is not as said. *)
Theorem get_whois_raw_raises_only :
  forall (fuel : nat) (E : env) (self : WhoisParser.t) (server : option str)
         (previous : option (list str)) (never_cut with_server_list : bool)
         (server_list : option (list str)) (log : list exchange),
    (forall e,
        fst (WhoisParser.get_whois_raw fuel E self server previous never_cut
               with_server_list server_list log) = Raise e ->
        match e with
        | SocketError => True
        | TypeError =>
            exists rest ex,
              snd (WhoisParser.get_whois_raw fuel E self server previous
                     never_cut with_server_list server_list log)
              = rest ++ [ex]
              /\ connect_error E (ex_server ex) WhoisParser.default_port
                 = Some TypeError
        | UnicodeEncodeError => WhoisParser.rfc3490 self = false
        | UnicodeError => WhoisParser.rfc3490 self = true
        | WhoisException msg =>
            msg = no_root_message /\ (server = None \/ server = Some [])
        | OverflowError | ValueError _ => False
        end)
    /\ (fst (WhoisParser.get_whois_raw fuel E self server previous never_cut
               with_server_list server_list log) = NotEmbedded ->
        exists d rest ex,
          WhoisParser.wire_domain E self = Ok d
          /\ plain_domain d = false
          /\ snd (WhoisParser.get_whois_raw fuel E self server previous
                    never_cut with_server_list server_list log)
             = rest ++ [ex]
          /\ ex_server ex = verisign).
Proof.
  induction fuel as [|fuel IH];
    intros E self server previous never_cut with_server_list server_list
           log; [split; [intros e|]; discriminate|].
  rewrite get_whois_raw_start.
  destruct (WhoisParser.server_or_root E self server log)
    as [[s|e0| |] log0] eqn:H0.
  - destruct (server_or_root_ok _ _ _ _ _ _ H0) as [Hs _].
    rewrite (get_whois_raw_unfold _ _ _ _ _ _ _ _ _ Hs).
    pose proof (wire_domain_embedded E self) as Hwe.
    destruct (WhoisParser.wire_domain E self) as [domain|e1| |] eqn:Hw;
      [| |split; [intros e|]; discriminate|contradiction].
    + cbv zeta.
      destruct (net E (length log0) s WhoisParser.default_port) as [peer|].
      * destruct (Codec.utf8_encodable
                    (WhoisParser.prepare_request domain s)) eqn:Hu.
        -- destruct (peer (WhoisParser.prepare_request domain s))
             as [buff|].
           ++ pose proof (processed_raises domain s (decoded buff)) as Hp.
              destruct (processed domain s (decoded buff)) as [r|e1| |]
                eqn:Hr.
              ** destruct (WhoisParser.extract_whois_server r
                             (Some (or_empty server_list ++ [s])))
                   as [new|] eqn:Hx;
                   [|split; [intros e|]; discriminate].
                 match goal with
                 | |- context [WhoisParser.get_whois_raw fuel E self ?a ?b
                                 ?c ?d ?f ?l] =>
                     destruct (IH E self a b c d f l) as [IH1 IH2]
                 end.
                 split.
                 2:{ intros Hne.
                     destruct (IH2 Hne) as [d [rest [ex [Hd Hrest]]]].
                     rewrite Hw in Hd. exists d, rest, ex.
                     split; [exact Hd | exact Hrest]. }
                 intros e H. apply IH1 in H. destruct e; try exact H.
                 destruct H as [_ [H | H]]; [discriminate H|].
                 injection H as ->. exfalso.
                 exact (proj2 (proj2 (extract_some _ _ _ Hx)) eq_refl).
              ** exfalso. exact (Hp e1 eq_refl).
              ** split; [intros e|]; discriminate.
              ** split; [intros e; discriminate|]. intros _.
                 destruct (processed_not_embedded _ _ _ Hr) as [-> Hnp].
                 exists domain, log0,
                   (Exchange verisign WhoisParser.default_port
                      (WhoisParser.prepare_request domain verisign)
                      (Some buff)).
                 split; [reflexivity|]. split; [exact Hnp|].
                 split; reflexivity.
           ++ split; [|discriminate]. intros e H. injection H as <-.
              exact I.
        -- split; [|discriminate]. intros e H. injection H as <-.
           destruct (WhoisParser.rfc3490 self) eqn:R; [|reflexivity].
           rewrite (ascii_utf8_encodable _
                      (prepare_request_ascii _ s
                         (wire_domain_ascii _ _ _ R Hw))) in Hu.
           discriminate Hu.
      * split; [|discriminate]. intros e H. cbn [fst snd] in *.
        injection H as <-.
        pose proof (connect_failure_default_port E s) as Hd.
        destruct (connect_failure E s WhoisParser.default_port) eqn:Hc;
          try (destruct Hd as [Hd | Hd]; discriminate Hd); [exact I|].
        exists log0,
          (Exchange s WhoisParser.default_port
             (WhoisParser.prepare_request domain s) None).
        split; [reflexivity|].
        exact (connect_failure_type_error _ _ _ Hc).
    + split; [|discriminate]. cbn [fst]. intros e H. injection H as <-.
      destruct (wire_domain_raises_rfc3490 _ _ _ Hw) as [-> R]. exact R.
  - split; [|discriminate]. cbn [fst]. intros e H. injection H as <-.
    assert (Hf : fst (WhoisParser.get_root_server E self log) = Raise e0).
    { destruct server as [[|c s]|]; cbn [WhoisParser.server_or_root] in H0;
        try discriminate H0; rewrite H0; reflexivity. }
    assert (Hfalsy : server = None \/ server = Some []).
    { destruct server as [[|c s]|]; auto.
      cbn [WhoisParser.server_or_root] in H0. discriminate H0. }
    apply get_root_server_raises in Hf. destruct e0; auto; contradiction.
  - split; [intros e|]; discriminate.
  - exfalso. pose proof (get_root_server_embedded E self log) as Hne.
    destruct server as [[|c s]|]; cbn [WhoisParser.server_or_root] in H0;
      try discriminate H0; rewrite H0 in Hne; exact (Hne eq_refl).
Qed.

(** ** No server twice, whatever the outcome *)

Lemma Forall_removelast_cons {A : Type} (P : A -> Prop) (x : A) (l : list A) :
  P x -> Forall P (removelast l) -> Forall P (removelast (x :: l)).
Proof.
  intros Hx Hl. destruct l as [|y l]; [constructor|].
  change (removelast (x :: y :: l)) with (x :: removelast (y :: l)).
  constructor; assumption.
Qed.

Lemma chase_log_nodup (E : env) (self : WhoisParser.t) (fuel : nat) :
  forall (s : str) (previous : option (list str))
         (never_cut with_server_list : bool) (server_list : option (list str))
         (log : list exchange),
    s <> [] ->
    ~ In s (or_empty server_list) ->
    NoDup (or_empty server_list) ->
    exists exs,
      snd (WhoisParser.get_whois_raw fuel E self (Some s) previous never_cut
             with_server_list server_list log) = log ++ exs
      /\ NoDup (or_empty server_list ++ map ex_server exs)
      /\ Forall (fun ex => ex_port ex = WhoisParser.default_port) exs
      /\ Forall (fun ex => ex_reply ex <> None) (removelast exs).
Proof.
  induction fuel as [|fuel IH];
    intros s previous never_cut with_server_list server_list log Hs Hn Hd.
  { exists []. split; [symmetry; apply app_nil_r|].
    split; [rewrite app_nil_r; exact Hd|]. split; constructor. }
  assert (Hnone : exists exs : list exchange,
             log = log ++ exs
             /\ NoDup (or_empty server_list ++ map ex_server exs)
             /\ Forall (fun ex => ex_port ex = WhoisParser.default_port) exs
             /\ Forall (fun ex => ex_reply ex <> None) (removelast exs)).
  { exists []. split; [symmetry; apply app_nil_r|].
    split; [rewrite app_nil_r; exact Hd|]. split; constructor. }
  assert (Hone : forall request reply,
             exists exs : list exchange,
               log ++ [Exchange s WhoisParser.default_port request reply]
               = log ++ exs
               /\ NoDup (or_empty server_list ++ map ex_server exs)
               /\ Forall (fun ex => ex_port ex = WhoisParser.default_port) exs
               /\ Forall (fun ex => ex_reply ex <> None) (removelast exs)).
  { intros request reply.
    exists [Exchange s WhoisParser.default_port request reply].
    split; [reflexivity|]. split; [apply NoDup_snoc; assumption|].
    split; [constructor; [reflexivity | constructor] | constructor]. }
  rewrite (get_whois_raw_unfold _ _ _ _ _ _ _ _ _ Hs).
  destruct (WhoisParser.wire_domain E self) as [domain|e| |];
    try exact Hnone.
  cbv zeta.
  destruct (net E (length log) s WhoisParser.default_port) as [peer|];
    [|apply Hone].
  destruct (Codec.utf8_encodable (WhoisParser.prepare_request domain s));
    [|apply Hone].
  destruct (peer (WhoisParser.prepare_request domain s)) as [buff|];
    [|apply Hone].
  destruct (processed domain s (decoded buff)) as [r|e| |];
    try apply Hone.
  destruct (WhoisParser.extract_whois_server r
              (Some (or_empty server_list ++ [s]))) as [new|] eqn:Hx;
    [|apply Hone].
  destruct (extract_some _ _ _ Hx) as [_ [Hnew Hne]].
  destruct (IH new
              (Some ((if never_cut then decoded buff else r)
                       :: or_empty previous))
              never_cut with_server_list
              (Some (or_empty server_list ++ [s]))
              (log ++ [Exchange s WhoisParser.default_port
                         (WhoisParser.prepare_request domain s) (Some buff)])
              Hne Hnew)
    as [exs [Hl [Hnd [Hp Ha]]]].
  { rewrite or_empty_snoc. apply NoDup_snoc; assumption. }
  exists (Exchange s WhoisParser.default_port
            (WhoisParser.prepare_request domain s) (Some buff) :: exs).
  split; [rewrite Hl, <- app_assoc; reflexivity|].
  split; [rewrite or_empty_snoc, <- app_assoc in Hnd; exact Hnd|].
  split; [constructor; [reflexivity | exact Hp]|].
  apply Forall_removelast_cons; [discriminate | exact Ha].
Qed.

(** X12.  Whatever the outcome of a call of [get_whois_raw] made with no
    list of servers (it returns, raises, or is cut short), the exchanges it
    made are: at most one with the root server, then exchanges on port 43
    with servers that are all different; every one of them but the last was
    answered.  So a failing resolution has not asked any server twice
    either, the root lookup apart. *)
Theorem no_server_twice_whatever_the_outcome :
  forall (fuel : nat) (E : env) (self : WhoisParser.t) (server : option str)
         (previous : option (list str)) (never_cut with_server_list : bool)
         (log : list exchange),
  exists root exs,
    snd (WhoisParser.get_whois_raw fuel E self server previous never_cut
           with_server_list None log) = log ++ root ++ exs
    /\ root_lookup root
    /\ NoDup (map ex_server exs)
    /\ Forall (fun ex => ex_port ex = WhoisParser.default_port) exs
    /\ Forall (fun ex => ex_reply ex <> None) (removelast exs).
Proof.
  intros fuel E self server previous never_cut with_server_list log.
  destruct fuel as [|fuel].
  { exists [], []. split; [symmetry; apply app_nil_r|].
    split; [left; reflexivity|]. split; constructor; constructor. }
  rewrite get_whois_raw_start.
  destruct (server_or_root_log E self server log) as [root [Hl Hroot]].
  destruct (WhoisParser.server_or_root E self server log)
    as [[s|e| |] log0] eqn:H0; cbn [snd] in Hl; subst log0;
    try (exists root, []; split; [rewrite app_nil_r; reflexivity|];
         split; [exact Hroot|]; split; constructor; constructor).
  destruct (server_or_root_ok _ _ _ _ _ _ H0) as [Hs _].
  destruct (chase_log_nodup E self (S fuel) s previous never_cut
              with_server_list None (log ++ root) Hs)
    as [exs [Hexs [Hnd [Hp Ha]]]]; [intros [] | constructor |].
  exists root, exs.
  split; [rewrite Hexs, <- app_assoc; reflexivity|].
  split; [exact Hroot|]. split; [exact Hnd|]. split; assumption.
Qed.

(** ** What [never_cut] changes *)

Lemma never_cut_same_queries (fuel : nat) :
  forall (E : env) (self : WhoisParser.t) (server : option str)
         (p1 p2 : option (list str)) (with_server_list : bool)
         (server_list : option (list str)) (log : list exchange),
    Forall2 cut_of (or_empty p1) (or_empty p2) ->
    snd (WhoisParser.get_whois_raw fuel E self server p1 true
           with_server_list server_list log)
    = snd (WhoisParser.get_whois_raw fuel E self server p2 false
             with_server_list server_list log)
    /\ match fst (WhoisParser.get_whois_raw fuel E self server p1 true
                    with_server_list server_list log),
             fst (WhoisParser.get_whois_raw fuel E self server p2 false
                    with_server_list server_list log) with
       | Ok (WhoisParser.Responses c1), Ok (WhoisParser.Responses c2) =>
           Forall2 cut_of c1 c2
       | Ok (WhoisParser.ResponsesAndServers c1 l1),
         Ok (WhoisParser.ResponsesAndServers c2 l2) =>
           l1 = l2 /\ Forall2 cut_of c1 c2
       | Raise e1, Raise e2 => e1 = e2
       | OutOfFuel, OutOfFuel => True
       | NotEmbedded, NotEmbedded => True
       | _, _ => False
       end.
Proof.
  induction fuel as [|fuel IH];
    intros E self server p1 p2 with_server_list server_list log Hp.
  { split; [reflexivity | exact I]. }
  rewrite !get_whois_raw_start.
  destruct (WhoisParser.server_or_root E self server log)
    as [[s|e| |] log0] eqn:H0;
    try (split; [reflexivity | cbn [fst]; auto]).
  destruct (server_or_root_ok _ _ _ _ _ _ H0) as [Hs _].
  rewrite !(get_whois_raw_unfold _ _ _ _ _ _ _ _ _ Hs).
  destruct (WhoisParser.wire_domain E self) as [domain|e| |];
    try (split; [reflexivity | cbn [fst]; auto]).
  cbv zeta.
  destruct (net E (length log0) s WhoisParser.default_port) as [peer|];
    [|split; [reflexivity | cbn [fst]; auto]].
  destruct (Codec.utf8_encodable (WhoisParser.prepare_request domain s));
    [|split; [reflexivity | cbn [fst]; auto]].
  destruct (peer (WhoisParser.prepare_request domain s)) as [buff|];
    [|split; [reflexivity | cbn [fst]; auto]].
  destruct (processed domain s (decoded buff)) as [r|e| |] eqn:Hr;
    try (split; [reflexivity | cbn [fst]; auto]).
  assert (Hcut : Forall2 cut_of (decoded buff :: or_empty p1)
                   (r :: or_empty p2)).
  { constructor; [exact (processed_block _ _ _ _ Hr) | exact Hp]. }
  destruct (WhoisParser.extract_whois_server r
              (Some (or_empty server_list ++ [s]))) as [new|].
  - apply IH. exact Hcut.
  - split; [reflexivity|]. destruct with_server_list; cbn [fst]; auto.
Qed.

(** X13.  [never_cut] changes the entries of the chain and nothing else:
    with it or without it the same exchanges are made, the call ends the same
    way (same exception, if any) and the same list of servers is returned;
    the two chains have the same length, and entry by entry the one without
    [never_cut] is the raw response of the other chain or one of its
    blocks. *)
Theorem never_cut_changes_only_the_entries :
  forall (fuel : nat) (E : env) (self : WhoisParser.t) (server : option str)
         (with_server_list : bool) (server_list : option (list str))
         (log : list exchange),
    snd (WhoisParser.get_whois_raw fuel E self server None true
           with_server_list server_list log)
    = snd (WhoisParser.get_whois_raw fuel E self server None false
             with_server_list server_list log)
    /\ match fst (WhoisParser.get_whois_raw fuel E self server None true
                    with_server_list server_list log),
             fst (WhoisParser.get_whois_raw fuel E self server None false
                    with_server_list server_list log) with
       | Ok (WhoisParser.Responses c1), Ok (WhoisParser.Responses c2) =>
           Forall2 cut_of c1 c2
       | Ok (WhoisParser.ResponsesAndServers c1 l1),
         Ok (WhoisParser.ResponsesAndServers c2 l2) =>
           l1 = l2 /\ Forall2 cut_of c1 c2
       | Raise e1, Raise e2 => e1 = e2
       | OutOfFuel, OutOfFuel => True
       | NotEmbedded, NotEmbedded => True
       | _, _ => False
       end.
Proof.
  intros fuel E self server with_server_list server_list log.
  apply never_cut_same_queries. constructor.
Qed.

(** ** The dots of the domain in the record search *)

Lemma domain_atoms_reads (domain w : str) :
  Forall2 reads_as domain w ->
  forall atoms,
    WhoisParser.domain_atoms domain = Some atoms ->
    length atoms = length w /\ Re.atoms_here atoms w = true.
Proof.
  intros H. induction H as [|c x d w Hc _ IH]; intros atoms.
  - intros Ha. injection Ha as <-. split; reflexivity.
  - cbn [WhoisParser.domain_atoms]. unfold reads_as in Hc.
    destruct (is_ascii c); cbn [negb]; [|discriminate].
    destruct (upper_ascii c =? 46)%N.
    + destruct (WhoisParser.domain_atoms d) as [atoms'|]; [|discriminate].
      intros Ha. injection Ha as <-.
      destruct (IH atoms' eq_refl) as [Hl Hm]. split; [simpl; lia|].
      cbn [Re.atoms_here Re.atom_matches]. rewrite Hm.
      apply N.eqb_neq in Hc. rewrite Hc. reflexivity.
    + destruct (Re.is_special (upper_ascii c)); [discriminate|].
      destruct (WhoisParser.domain_atoms d) as [atoms'|]; [|discriminate].
      intros Ha. injection Ha as <-.
      destruct (IH atoms' eq_refl) as [Hl Hm]. split; [simpl; lia|].
      cbn [Re.atoms_here Re.atom_matches]. rewrite Hm, Hc, N.eqb_refl.
      reflexivity.
Qed.

Lemma search_reads (domain w a b : str) (p : list Re.atom) :
  WhoisParser.domain_pattern domain = Some p ->
  Forall2 reads_as domain w ->
  Re.search p (a ++ lit "Domain Name: " ++ w ++ [LF] ++ b) = true.
Proof.
  intros Hp Hw. destruct (domain_pattern_some _ _ Hp) as [atoms [Ha ->]].
  destruct (domain_atoms_reads _ _ Hw atoms Ha) as [Hl Hm].
  apply search_app.
  rewrite atoms_here_app by apply length_map.
  rewrite atoms_here_same.
  rewrite atoms_here_app by exact Hl.
  rewrite Hm. reflexivity.
Qed.

(** X14.  For a domain of ASCII characters none of which is a special
    character of patterns other than the dot: the domain goes into the
    pattern of the record search as it is, so each of its dots stands for
    any character but a newline.  When the first block of a response of
    [whois.verisign-grs.com] has a line [Domain Name: w] where [w] is the
    upper-case domain with any characters in the place of its dots, that
    block is the one selected, although it may be the record of another
    domain: for [a.com], the record of [AXCOM] is taken when it comes
    first. *)
Theorem verisign_domain_dots_match_any_character :
  forall (response domain block : str) (rest : list str) (a w b : str)
         (previous server_list : list str) (never_cut : bool),
    plain_domain domain = true ->
    split response [LF; LF] = block :: rest ->
    block = a ++ lit "Domain Name: " ++ w ++ [LF] ++ b ->
    Forall2 reads_as domain w ->
    WhoisParser._process_response response domain verisign
      previous server_list never_cut
    = Ok (block, (if never_cut then response else block) :: previous,
          server_list ++ [verisign]).
Proof.
  intros response domain block rest a w b previous server_list never_cut
         Hplain Hs Hb Hw.
  destruct (plain_domain_pattern _ Hplain) as [p Hp].
  rewrite (process_response_verisign _ _ _ _ _ _ Hp).
  assert (Hsel : selected p response = block).
  { unfold selected. rewrite Hs. cbn [WhoisParser.first_record].
    rewrite Hb, (search_reads _ _ _ _ _ Hp Hw). reflexivity. }
  rewrite Hsel. reflexivity.
Qed.

Lemma verisign_axcom_witness :
  plain_domain (lit "a.com") = true
  /\ Forall2 reads_as (lit "a.com") (lit "AXCOM")
  /\ WhoisParser._process_response wildcard_records (lit "a.com") verisign
       [] [] false
     = Ok (axcom_record, [axcom_record], [verisign]).
Proof.
  assert (Hw : Forall2 reads_as (lit "a.com") (lit "AXCOM")).
  { repeat constructor; vm_compute; try reflexivity; discriminate. }
  split; [reflexivity|]. split; [exact Hw|].
  exact (verisign_domain_dots_match_any_character wildcard_records
           (lit "a.com") axcom_record
           [lit "Domain Name: A.COM" ++ [LF] ++ lit "Registrar: B" ++ [LF]]
           [] (lit "AXCOM") (lit "Registrar: A") [] [] false
           eq_refl eq_refl eq_refl Hw).
Defined.

(** ** ASCII replies *)

Lemma utf8_ascii (l : list N) :
  forallb is_ascii l = true -> Codec.utf8 l = Some l.
Proof.
  induction l as [|c l IH]; [reflexivity|].
  simpl. rewrite andb_true_iff. intros [Hc Hl].
  unfold is_ascii in Hc. rewrite Hc, (IH Hl). reflexivity.
Qed.

Lemma encode_ascii_ok (s : str) (b : bytes) :
  Codec.encode_ascii s = Some b ->
  forallb is_ascii s = true /\ map Byte.to_N b = s.
Proof.
  intros H. destruct (forallb is_ascii s) eqn:Ha.
  - destruct (encode_ascii_some _ Ha) as [b' [Hb Hm]].
    rewrite Hb in H. injection H as <-. split; [reflexivity | exact Hm].
  - rewrite (encode_ascii_none _ Ha) in H. discriminate H.
Qed.

(** X15.  A reply that is the ASCII encoding of a text comes back from
    [whois_request] as that text: the request is sent once, and the first
    decoding, UTF-8, reads ASCII bytes as they are. *)
Theorem ascii_reply_is_returned_as_sent :
  forall (E : env) (request server : str) (port : N) (log : list exchange)
         (peer : str -> option bytes) (text : str) (buff : bytes),
    net E (length log) server port = Some peer ->
    Codec.utf8_encodable request = true ->
    peer request = Some buff ->
    Codec.encode_ascii text = Some buff ->
    WhoisParser.whois_request E request server port log
    = (Ok text, log ++ [Exchange server port request (Some buff)]).
Proof.
  intros E request server port log peer text buff Hn Hu Hp Ht.
  unfold WhoisParser.whois_request, bind. rewrite server_request_net.
  unfold lift. rewrite Hn, Hu, Hp, server_process_result_decoded.
  destruct (encode_ascii_ok _ _ Ht) as [Ha Hm].
  unfold decoded, Codec.decode_utf8. rewrite Hm, (utf8_ascii _ Ha).
  reflexivity.
Qed.

Lemma ascii_reply_witness :
  exists buff,
    Codec.encode_ascii (lit "refer: whois.pir.org") = Some buff
    /\ WhoisParser.whois_request (answers_with (lit "refer: whois.pir.org"))
         (lit "example.org") WhoisParser.IANA_SERVER WhoisParser.default_port
         []
       = (Ok (lit "refer: whois.pir.org"),
          [Exchange WhoisParser.IANA_SERVER WhoisParser.default_port
             (lit "example.org") (Some buff)]).
Proof.
  destruct (Codec.encode_ascii (lit "refer: whois.pir.org")) as [buff|] eqn:Hb;
    [|discriminate Hb].
  exists buff. split; [reflexivity|].
  apply (ascii_reply_is_returned_as_sent
           (answers_with (lit "refer: whois.pir.org"))
           (lit "example.org") WhoisParser.IANA_SERVER
           WhoisParser.default_port []
           (fun _ => Codec.encode_ascii (lit "refer: whois.pir.org"))
           (lit "refer: whois.pir.org") buff);
    [reflexivity | reflexivity | exact Hb | exact Hb].
Defined.

(** ** A domain of the table, end to end *)

(** X16.  For a domain that a key of the table ends, a call of the module's
    [get_whois_raw] with no server never asks [whois.iana.org] for the root
    server: the first exchange of the call is with the table's server, on
    port 43, with the request of [prepare_request] for that server (so
    [=example.com] goes to [whois.verisign-grs.com] for [example.com]); when
    the domain cannot be put in its wire form, nothing is sent. *)
Theorem table_domain_goes_straight_to_its_server :
  forall (fuel : nat) (E : env) (domain s : str)
         (rfc3490 never_cut : option bool) (log : list exchange),
    WhoisParser.get_default_server domain = Some s ->
    match WhoisParser.wire_domain E
            (WhoisParser.Build domain
               (match rfc3490 with Some b => b | None => true end)) with
    | Ok d =>
        exists reply rest,
          snd (get_whois_raw (S fuel) E domain None rfc3490 never_cut log)
          = log ++ Exchange s WhoisParser.default_port
                     (WhoisParser.prepare_request d s) reply :: rest
    | _ => snd (get_whois_raw (S fuel) E domain None rfc3490 never_cut log)
           = log
    end.
Proof.
  intros fuel E domain s rfc3490 never_cut log Hd.
  unfold get_whois_raw. rewrite get_whois_raw_start.
  assert (Hroot : WhoisParser.server_or_root E
                    (WhoisParser.Build domain
                       (match rfc3490 with Some b => b | None => true end))
                    (Some (lit "")) log = (Ok s, log)).
  { cbn [WhoisParser.server_or_root lit]. unfold WhoisParser.get_root_server.
    cbn [WhoisParser.domain]. rewrite Hd. reflexivity. }
  rewrite Hroot.
  apply get_whois_raw_first_exchange.
  exact (get_default_server_nonempty _ _ Hd).
Qed.

Lemma table_domain_example_com_witness :
  WhoisParser.get_default_server (lit "example.com")
  = Some (lit "whois.verisign-grs.com")
  /\ exists reply rest,
      snd (get_whois_raw 3 (answers_with two_records) (lit "example.com")
             None None None [])
      = [] ++ Exchange (lit "whois.verisign-grs.com") WhoisParser.default_port
                (lit "=example.com") reply :: rest.
Proof.
  split; [reflexivity|].
  exact (table_domain_goes_straight_to_its_server 2 (answers_with two_records)
           (lit "example.com") (lit "whois.verisign-grs.com") None None []
           eq_refl).
Defined.

(** ** Lists passed in by the caller *)

(** The servers of a chase, the first one apart, are not in the list the
    chase started with. *)
Lemma chase_skips_visited (E : env) (domain : str) (n : nat)
    (visited : list str) (exs : list exchange) :
  chase E domain n visited exs ->
  Forall (fun ex => ~ In (ex_server ex) visited) (tl exs).
Proof.
  intros H.
  induction H as [n visited ex Hq Hx | n visited ex ex' exs Hq Hx Hc IH].
  - constructor.
  - cbn [tl] in *. constructor.
    + destruct (extract_some _ _ _ Hx) as [_ [Hn _]].
      rewrite or_empty_snoc in Hn. intros Hin. apply Hn.
      apply in_or_app. left. exact Hin.
    + destruct exs as [|ex'' exs]; [constructor|].
      cbn [tl] in IH. revert IH. apply Forall_impl.
      intros e He Hin. apply He. apply in_or_app. left. exact Hin.
Qed.

Lemma chase_servers_nodup (E : env) (domain : str) (n : nat)
    (visited : list str) (exs : list exchange) :
  chase E domain n visited exs -> NoDup (map ex_server exs).
Proof.
  intros H.
  induction H as [n visited e Hq Hx | n visited e e' l Hq Hx Hl IH].
  - constructor; [intros [] | constructor].
  - change (map ex_server (e :: e' :: l))
      with (ex_server e :: map ex_server (e' :: l)).
    constructor; [|exact IH].
    pose proof (chase_skips_visited _ _ _ _ _ Hl) as Hs.
    destruct (extract_some _ _ _ Hx) as [_ [Hn _]].
    rewrite or_empty_snoc in Hn.
    intros Hin. cbn [map] in Hin. destruct Hin as [Hin | Hin].
    + apply Hn. rewrite <- Hin. apply in_or_app. right. left. reflexivity.
    + cbn [tl] in Hs. apply in_map_iff in Hin.
      destruct Hin as [e0 [He0 Hin]]. rewrite Forall_forall in Hs.
      apply (Hs e0 Hin). rewrite He0. apply in_or_app. right. left.
      reflexivity.
Qed.

(** X17.  Lists that the caller passes to [get_whois_raw] are extended and
    not replaced.  When the call returns, the exchanges it made are at most
    one with the root server and then those of the chase, at least one; the
    returned chain is one entry per exchange of the chase, the latest
    first, followed by the caller's [previous]; the returned list of servers
    is the caller's [server_list] followed by the servers of the chase in
    the order they were queried (the root lookup is not recorded in it).
    Neither the root lookup nor the first server of the chase is checked
    against the caller's list; every later server of the chase is a server
    that is not in the caller's list, and the servers of the chase are all
    different. *)
Theorem caller_lists_are_extended :
  forall (fuel : nat) (E : env) (self : WhoisParser.t) (server : option str)
         (previous : option (list str)) (never_cut : bool)
         (server_list : option (list str)) (log : list exchange)
         (res : WhoisParser.raw) (log' : list exchange),
    WhoisParser.get_whois_raw fuel E self server previous never_cut true
      server_list log = (Ok res, log') ->
    exists d root exs,
      log' = log ++ root ++ exs
      /\ root_lookup root
      /\ exs <> []
      /\ res = WhoisParser.ResponsesAndServers
                 (rev (map (chain_entry d never_cut) exs)
                    ++ or_empty previous)
                 (or_empty server_list ++ map ex_server exs)
      /\ Forall (fun ex => ~ In (ex_server ex) (or_empty server_list))
           (tl exs)
      /\ NoDup (map ex_server exs).
Proof.
  intros fuel E self server previous never_cut server_list log res log' H.
  destruct (resolution_shape _ _ _ _ _ _ _ _ _ _ _ H)
    as [d [root [ex [exs [_ [Hl [Hroot [_ [Hc Hres]]]]]]]]].
  exists d, root, (ex :: exs).
  split; [exact Hl|]. split; [exact Hroot|]. split; [discriminate|].
  split; [exact Hres|]. split.
  - exact (chase_skips_visited _ _ _ _ _ Hc).
  - exact (chase_servers_nodup _ _ _ _ _ Hc).
Qed.

(** The root server refers to [whois.pir.org], which refers back; both are
    in the list of the caller, and both are queried. *)
Lemma caller_lists_refers_back_witness :
  get_whois_raw_with_lists_example
  = (Ok (WhoisParser.ResponsesAndServers
           [lit "Registrar WHOIS Server: whois.iana.org"; lit "earlier"]
           [lit "whois.iana.org"; lit "whois.pir.org"; lit "whois.pir.org"]),
     [Exchange (lit "whois.iana.org") WhoisParser.default_port
        (lit "example.org")
        (Codec.encode_ascii (lit "refer: whois.pir.org"));
      Exchange (lit "whois.pir.org") WhoisParser.default_port
        (lit "example.org")
        (Codec.encode_ascii (lit "Registrar WHOIS Server: whois.iana.org"))])
  /\ exists d root exs,
      root ++ exs
      = [Exchange (lit "whois.iana.org") WhoisParser.default_port
           (lit "example.org")
           (Codec.encode_ascii (lit "refer: whois.pir.org"));
         Exchange (lit "whois.pir.org") WhoisParser.default_port
           (lit "example.org")
           (Codec.encode_ascii
              (lit "Registrar WHOIS Server: whois.iana.org"))]
      /\ root_lookup root
      /\ exs <> []
      /\ WhoisParser.ResponsesAndServers
           [lit "Registrar WHOIS Server: whois.iana.org"; lit "earlier"]
           [lit "whois.iana.org"; lit "whois.pir.org"; lit "whois.pir.org"]
         = WhoisParser.ResponsesAndServers
             (rev (map (chain_entry d false) exs) ++ [lit "earlier"])
             ([lit "whois.iana.org"; lit "whois.pir.org"]
                ++ map ex_server exs)
      /\ NoDup (map ex_server exs).
Proof.
  assert (Hrun : get_whois_raw_with_lists_example
                 = (Ok (WhoisParser.ResponsesAndServers
                          [lit "Registrar WHOIS Server: whois.iana.org";
                           lit "earlier"]
                          [lit "whois.iana.org"; lit "whois.pir.org";
                           lit "whois.pir.org"]),
                    [Exchange (lit "whois.iana.org") WhoisParser.default_port
                       (lit "example.org")
                       (Codec.encode_ascii (lit "refer: whois.pir.org"));
                     Exchange (lit "whois.pir.org") WhoisParser.default_port
                       (lit "example.org")
                       (Codec.encode_ascii
                          (lit "Registrar WHOIS Server: whois.iana.org"))]))
    by (vm_compute; reflexivity).
  split; [exact Hrun|].
  destruct (caller_lists_are_extended 3 refers_back
              (WhoisParser.Build (lit "example.org") true) None
              (Some [lit "earlier"]) false
              (Some [lit "whois.iana.org"; lit "whois.pir.org"]) [] _ _ Hrun)
    as [d [root [exs [Hl [Hroot [Hne [Hres [_ Hnd]]]]]]]].
  exists d, root, exs.
  split; [symmetry; exact Hl|]. split; [exact Hroot|]. split; [exact Hne|].
  split; [exact Hres | exact Hnd].
Defined.

(* ================================================================== *)
(** * The claims on a whole resolution *)

(** ** No server twice, and termination *)

(** C1, as amended.  The root lookup at [whois.iana.org] is not recorded in
    the list of servers; that lookup apart, no server is queried twice.
    Whatever the outcome of a call of the module's [get_whois_raw], its
    exchanges are at most one with the root server followed by exchanges
    with servers that are all different; when it returns, these are the
    exchanges of a chase: each next server is the one extracted from the
    processed response against the list, to which the server just queried
    was appended.  A server that is extracted is never in the list, and
    nothing is extracted when every candidate of the response is in the
    list.  When every referral that the peers can give names a server of a
    finite list [U], the call comes back (a recursion depth above
    [length U] is never exhausted), after at most [length U + 1] queries of
    the chase, the root lookup apart. *)
Theorem C1_no_server_twice_after_root_lookup :
  forall (E : env) (U : list str) (fuel : nat) (domain : str)
         (server : option (option str)) (rfc3490 never_cut : option bool)
         (log : list exchange),
    referrals_within E U ->
    length U < fuel ->
    fst (get_whois_raw fuel E domain server rfc3490 never_cut log)
    <> OutOfFuel
    /\ (exists root exs,
           snd (get_whois_raw fuel E domain server rfc3490 never_cut log)
           = log ++ root ++ exs
           /\ root_lookup root
           /\ NoDup (map ex_server exs))
    /\ (forall r log',
           get_whois_raw fuel E domain server rfc3490 never_cut log
           = (Ok r, log') ->
           exists d root exs,
             log' = log ++ root ++ exs
             /\ root_lookup root
             /\ chase E d (length (log ++ root)) [] exs
             /\ NoDup (map ex_server exs)
             /\ length exs <= S (length U))
    /\ (forall response server_list new_server,
           WhoisParser.extract_whois_server response server_list
           = Some new_server ->
           ~ In new_server (or_empty server_list))
    /\ (forall response visited,
           (forall token,
               In token (referral_tokens response) -> In token visited) ->
           WhoisParser.extract_whois_server response (Some visited) = None).
Proof.
  intros E U fuel domain server rfc3490 never_cut log HU Hf.
  unfold get_whois_raw.
  set (self := WhoisParser.Build domain
                 (match rfc3490 with Some b => b | None => true end)).
  set (srv := match server with Some s => s | None => Some (lit "") end).
  set (nc := match never_cut with Some b => b | None => false end).
  split; [|split; [|split; [|split]]].
  - destruct fuel as [|fuel]; [lia|].
    rewrite get_whois_raw_start.
    pose proof (server_or_root_fuel E self srv log) as Hsf.
    destruct (WhoisParser.server_or_root E self srv log)
      as [[s|e| |] log0] eqn:H0; cbn [fst] in *; try discriminate;
      [|contradiction].
    destruct (server_or_root_ok _ _ _ _ _ _ H0) as [Hs _].
    apply (get_whois_raw_fuel E self U HU); [exact Hs|].
    pose proof (filter_length_le
                  (fun u => negb (str_in u (or_empty None ++ [s]))) U) as Hle.
    unfold unvisited. lia.
  - destruct fuel as [|fuel]; [lia|].
    rewrite get_whois_raw_start.
    destruct (server_or_root_log E self srv log) as [root [Hl Hroot]].
    destruct (WhoisParser.server_or_root E self srv log)
      as [[s|e| |] log0] eqn:H0; cbn [snd] in Hl; subst log0;
      try (exists root, []; split; [rewrite app_nil_r; reflexivity|];
           split; [exact Hroot | constructor]).
    destruct (server_or_root_ok _ _ _ _ _ _ H0) as [Hs _].
    destruct (chase_log_nodup E self (S fuel) s None nc false None
                (log ++ root) Hs)
      as [exs [Hexs [Hnd _]]]; [intros [] | constructor |].
    exists root, exs.
    split; [rewrite Hexs, <- app_assoc; reflexivity|].
    split; [exact Hroot | exact Hnd].
  - intros r log' H.
    destruct (resolution_shape _ _ _ _ _ _ _ _ _ _ _ H)
      as [d [root [ex [exs [_ [Hl [Hroot [_ [Hc _]]]]]]]]].
    destruct (chase_length E U d _ _ HU Hc) as [Hnd Hlen].
    exists d, root, (ex :: exs).
    split; [exact Hl|]. split; [exact Hroot|]. split; [exact Hc|].
    split; [exact Hnd | exact Hlen].
  - intros response server_list new_server Hx.
    exact (proj1 (proj2 (extract_some _ _ _ Hx))).
  - intros response visited. apply extract_all_visited.
Qed.

Lemma C1_refers_back_witness :
  referrals_within refers_back [lit "whois.pir.org"; lit "whois.iana.org"]
  /\ fst (get_whois_raw 3 refers_back (lit "example.org") None None None [])
     <> OutOfFuel
  /\ map ex_server
       (snd (get_whois_raw 3 refers_back (lit "example.org") None None None
               []))
     = [lit "whois.iana.org"; lit "whois.pir.org"; lit "whois.iana.org"].
Proof.
  split; [exact refers_back_within|]. split.
  - apply (C1_no_server_twice_after_root_lookup refers_back
             [lit "whois.pir.org"; lit "whois.iana.org"] 3
             (lit "example.org") None None None []).
    + exact refers_back_within.
    + simpl. lia.
  - vm_compute. reflexivity.
Defined.

(** C1, as stated, fails: the root server refers to [whois.pir.org], whose
    response refers back to [whois.iana.org]; the root lookup was not
    recorded, so [whois.iana.org] is queried a second time. *)
Lemma C1_root_server_twice_counterexample : ~ no_server_queried_twice.
Proof.
  intros H.
  set (run := get_whois_raw 3 refers_back (lit "example.org") None None None
                []).
  assert (Hrun : run
                 = (Ok (WhoisParser.Responses
                          [lit "refer: whois.pir.org";
                           lit "Registrar WHOIS Server: whois.iana.org"]),
                    snd run)) by (vm_compute; reflexivity).
  specialize (H 3 refers_back (lit "example.org") None None None _ _ Hrun).
  vm_compute in H. apply NoDup_cons_iff in H. destruct H as [Hn _].
  apply Hn. right. left. reflexivity.
Qed.

(** ** The order of the chain *)

Lemma C6_two_hops_witness :
  get_whois_raw 3 two_hops (lit "example.org")
    (Some (Some (lit "whois.a.example"))) None (Some true) []
  = (Ok (WhoisParser.Responses
           [lit "Domain not found."; lit "refer: whois.b.example"]),
     snd (get_whois_raw 3 two_hops (lit "example.org")
            (Some (Some (lit "whois.a.example"))) None (Some true) []))
  /\ exists d root exs,
      root_lookup root
      /\ map ex_server (root ++ exs)
         = [lit "whois.a.example"; lit "whois.b.example"]
      /\ WhoisParser.Responses
           [lit "Domain not found."; lit "refer: whois.b.example"]
         = WhoisParser.Responses (rev (map (chain_entry d true) exs)).
Proof.
  assert (Hrun : get_whois_raw 3 two_hops (lit "example.org")
                   (Some (Some (lit "whois.a.example"))) None (Some true) []
                 = (Ok (WhoisParser.Responses
                          [lit "Domain not found.";
                           lit "refer: whois.b.example"]),
                    snd (get_whois_raw 3 two_hops (lit "example.org")
                           (Some (Some (lit "whois.a.example"))) None
                           (Some true) [])))
    by (vm_compute; reflexivity).
  split; [exact Hrun|].
  destruct (C6_chain_latest_first_in_both_modes 3 two_hops
              (lit "example.org") (Some (Some (lit "whois.a.example"))) None
              (Some true) [] _ _ Hrun)
    as [d [root [exs [Hl [Hroot [_ [Hres _]]]]]]].
  exists d, root, exs. split; [exact Hroot|]. split; [|exact Hres].
  cbn [app] in Hl. rewrite <- Hl. vm_compute. reflexivity.
Defined.

(** C6, as stated, fails: with [never_cut] true the chain of two queries has
    the response of the second query first, not the responses in the order
    of the queries. *)
Lemma C6_never_cut_order_counterexample : ~ never_cut_in_query_order.
Proof.
  intros H.
  set (run := get_whois_raw 3 two_hops (lit "example.org")
                (Some (Some (lit "whois.a.example"))) None (Some true) []).
  assert (Hrun : run
                 = (Ok (WhoisParser.Responses
                          [lit "Domain not found.";
                           lit "refer: whois.b.example"]),
                    snd run)) by (vm_compute; reflexivity).
  assert (Hs : lit "whois.a.example" <> []) by discriminate.
  specialize (H 3 two_hops (lit "example.org") (lit "whois.a.example")
                _ _ Hs Hrun).
  vm_compute in H. discriminate H.
Qed.

(** ** The server argument *)

(** C10.  The module's [get_whois_raw] takes the empty string for a server
    that is left out; for a server left out, [None] or the empty string the
    root server is looked up by [get_root_server], and the call goes on with
    its result as if it had been given (it raises what the root lookup
    raises).  A non-empty server is taken as it is, with no root lookup: the
    first exchange of the call is with that server, on port 43, with the
    request of [prepare_request], and nothing at all is sent when the domain
    cannot be put in its wire form. *)
Theorem C10_falsy_server_means_root_lookup :
  forall (fuel : nat) (E : env) (domain s : str)
         (rfc3490 never_cut : option bool) (log : list exchange),
    s <> [] ->
    let parser :=
      WhoisParser.Build domain
        (match rfc3490 with Some b => b | None => true end) in
    get_whois_raw fuel E domain None rfc3490 never_cut log
    = get_whois_raw fuel E domain (Some (Some (lit ""))) rfc3490 never_cut log
    /\ (forall server,
           In server [None; Some None; Some (Some (lit ""))] ->
           WhoisParser.server_or_root E parser
             (match server with Some x => x | None => Some (lit "") end)
           = WhoisParser.get_root_server E parser
           /\ get_whois_raw (S fuel) E domain server rfc3490 never_cut log
              = match WhoisParser.get_root_server E parser log with
                | (Ok root, log0) =>
                    get_whois_raw (S fuel) E domain (Some (Some root))
                      rfc3490 never_cut log0
                | (Raise e, log0) => (Raise e, log0)
                | (OutOfFuel, log0) => (OutOfFuel, log0)
                | (NotEmbedded, log0) => (NotEmbedded, log0)
                end)
    /\ WhoisParser.server_or_root E parser (Some s) log = (Ok s, log)
    /\ match WhoisParser.wire_domain E parser with
       | Ok d =>
           exists reply rest,
             snd (get_whois_raw (S fuel) E domain (Some (Some s)) rfc3490
                    never_cut log)
             = log ++ Exchange s WhoisParser.default_port
                        (WhoisParser.prepare_request d s) reply :: rest
       | _ =>
           snd (get_whois_raw (S fuel) E domain (Some (Some s)) rfc3490
                  never_cut log) = log
       end.
Proof.
  intros fuel E domain s rfc3490 never_cut log Hs parser.
  split; [reflexivity|]. split; [|split].
  - intros server Hin.
    assert (Hroot : WhoisParser.server_or_root E parser
                      (match server with
                       | Some x => x
                       | None => Some (lit "")
                       end)
                    = WhoisParser.get_root_server E parser).
    { destruct Hin as [<- | [<- | [<- | []]]]; reflexivity. }
    split; [exact Hroot|].
    unfold get_whois_raw. fold parser.
    rewrite get_whois_raw_start, Hroot. reflexivity.
  - rewrite (server_or_root_given E parser s Hs). reflexivity.
  - unfold get_whois_raw. fold parser.
    apply get_whois_raw_first_exchange. exact Hs.
Qed.

Lemma C10_given_server_witness :
  lit "whois.pir.org" <> []
  /\ map ex_server
       (snd (get_whois_raw 3 refers_back (lit "example.org")
               (Some (Some (lit "whois.pir.org"))) None None []))
     = [lit "whois.pir.org"; lit "whois.iana.org"]
  /\ get_whois_raw 3 refers_back (lit "example.org") (Some None) None None []
     = match WhoisParser.get_root_server refers_back
               (WhoisParser.Build (lit "example.org") true) [] with
       | (Ok root, log0) =>
           get_whois_raw 3 refers_back (lit "example.org")
             (Some (Some root)) None None log0
       | (Raise e, log0) => (Raise e, log0)
       | (OutOfFuel, log0) => (OutOfFuel, log0)
       | (NotEmbedded, log0) => (NotEmbedded, log0)
       end.
Proof.
  assert (Hs : lit "whois.pir.org" <> []) by discriminate.
  split; [exact Hs|]. split; [vm_compute; reflexivity|].
  destruct (C10_falsy_server_means_root_lookup 2 refers_back
              (lit "example.org") (lit "whois.pir.org") None None [] Hs)
    as [_ [H _]].
  exact (proj2 (H (Some None) (or_intror (or_introl eq_refl)))).
Defined.
